(** * Cloudreve [pkg/conf]: configuration loading and RClone bind points

    A shallow embedding of [pkg/conf/conf.go]: the configuration records
    with their [validate] struct tags, [mapSection], [Init] and
    [initRCloneBind], together with the properties of the natural-language
    specification that can be settled on that code.

    Go strings are byte strings and are modelled by [string]; Go [int] and
    [uint] values are modelled by [Z] (the code performs no arithmetic on
    them); a Go [map[string]T] is a [gmap string T]. *)

From Stdlib Require Import ZArith Ascii String List Permutation Lia.
From stdpp Require Import base option list strings gmap.

Open Scope string_scope.
Open Scope list_scope.
Open Scope Z_scope.

(** ** Go standard library: package [strings] *)

Module strings.

(** [strings.HasPrefix]. *)
Fixpoint HasPrefix (s prefix : string) : bool :=
  match prefix, s with
  | EmptyString, _ => true
  | String _ _, EmptyString => false
  | String p prefix', String c s' => Ascii.eqb c p && HasPrefix s' prefix'
  end.

(** [strings.Index]: position of the first occurrence of [sep] in [s]. *)
Fixpoint Index (s sep : string) : option nat :=
  if HasPrefix s sep then Some 0%nat
  else match s with
       | EmptyString => None
       | String _ s' => S <$> Index s' sep
       end.

(** The slice expressions [s[:m]] and [s[m:]]. *)
Fixpoint take (m : nat) (s : string) : string :=
  match m, s with
  | S m', String c s' => String c (take m' s')
  | _, _ => EmptyString
  end.

Fixpoint drop (m : nat) (s : string) : string :=
  match m, s with
  | S m', String _ s' => drop m' s'
  | _, _ => s
  end.

(** The loop of [genSplit] for a non-empty separator: [cuts] is the
    number of separators still to be consumed ([n - 1] in the source). *)
Fixpoint genSplit (s sep : string) (cuts : nat) : list string :=
  match cuts with
  | O => [s]
  | S k =>
      match Index s sep with
      | None => [s]
      | Some m => take m s :: genSplit (drop (m + String.length sep) s) sep k
      end
  end.

(** [strings.SplitN] for a non-empty separator (the only use in this
    package and in the tag parser). *)
Definition SplitN (s sep : string) (n : Z) : list string :=
  if n =? 0 then []
  else if n <? 0 then genSplit s sep (String.length s)
  else genSplit s sep (Z.to_nat (n - 1)).

(** [strings.Split s sep = strings.SplitN s sep (-1)]. *)
Definition Split (s sep : string) : list string := SplitN s sep (-1).

(** [strings.Replace s old new (-1)] for a non-empty [old]: every
    non-overlapping occurrence, scanning from the left.  [skip] counts
    the bytes of an occurrence that was just replaced and is still to be
    stepped over. *)
Fixpoint replace_from (skip : nat) (s old new : string) : string :=
  match s with
  | EmptyString => EmptyString
  | String c s' =>
      match skip with
      | S k => replace_from k s' old new
      | O =>
          if HasPrefix s old
          then new +:+ replace_from (String.length old - 1) s' old new
          else String c (replace_from 0 s' old new)
      end
  end.

Definition ReplaceAll (s old new : string) : string := replace_from 0 s old new.

End strings.

(** ** Go standard library: [unicode/utf8] and [strconv] *)

Module utf8.

Definition byte_of (c : ascii) : Z := Z.of_nat (nat_of_ascii c).

(** The [first] table of package [utf8]: for a leading byte, the size of
    the encoding and the accepted range of the second byte; [None] is the
    table's [xx] (an invalid leading byte). *)
Definition first (c : Z) : option (nat * (Z * Z)) :=
  if c <? 128 then Some (1%nat, (128, 191))
  else if c <? 194 then None
  else if c <? 224 then Some (2%nat, (128, 191))
  else if c =? 224 then Some (3%nat, (160, 191))
  else if c <? 237 then Some (3%nat, (128, 191))
  else if c =? 237 then Some (3%nat, (128, 159))
  else if c <? 240 then Some (3%nat, (128, 191))
  else if c =? 240 then Some (4%nat, (144, 191))
  else if c <? 244 then Some (4%nat, (128, 191))
  else if c =? 244 then Some (4%nat, (128, 143))
  else None.

Definition in_range (lo hi : Z) (c : ascii) : bool :=
  (lo <=? byte_of c) && (byte_of c <=? hi).

(** Width in bytes of the rune that starts at the head of [String c s'],
    as [RuneCountInString] computes it: an invalid or truncated sequence
    has width 1. *)
Definition rune_width (c : ascii) (s' : string) : nat :=
  match first (byte_of c) with
  | None => 1%nat
  | Some (size, (lo, hi)) =>
      if (String.length s' <? size - 1)%nat then 1%nat
      else match size, s' with
           | 2%nat, String c1 _ => if in_range lo hi c1 then 2%nat else 1%nat
           | 3%nat, String c1 (String c2 _) =>
               if in_range lo hi c1 && in_range 128 191 c2 then 3%nat else 1%nat
           | 4%nat, String c1 (String c2 (String c3 _)) =>
               if in_range lo hi c1 && in_range 128 191 c2 && in_range 128 191 c3
               then 4%nat else 1%nat
           | _, _ => 1%nat
           end
  end.

(** [utf8.RuneCountInString]; [skip] counts the continuation bytes of
    the rune being stepped over. *)
Fixpoint count_from (skip : nat) (s : string) : Z :=
  match s with
  | EmptyString => 0
  | String c s' =>
      match skip with
      | S k => count_from k s'
      | O => 1 + count_from (rune_width c s' - 1) s'
      end
  end.

Definition RuneCountInString (s : string) : Z := count_from 0 s.

End utf8.

Module strconv.

Definition digit (c : ascii) : option Z :=
  let n := utf8.byte_of c in
  if (48 <=? n) && (n <=? 57) then Some (n - 48) else None.

Fixpoint digits (acc : Z) (s : string) : option Z :=
  match s with
  | EmptyString => Some acc
  | String c s' => d ← digit c; digits (10 * acc + d) s'
  end.

(** Decimal [strconv.ParseInt] with an optional sign (the validator's
    [asInt] calls it with base 0; the tags of this package only use plain
    decimal parameters).  [None] stands for the parse error. *)
Definition ParseInt (s : string) : option Z :=
  match s with
  | EmptyString => None
  | String "-" EmptyString | String "+" EmptyString => None
  | String "-" s' => Z.opp <$> digits 0 s'
  | String "+" s' => digits 0 s'
  | _ => digits 0 s
  end.

End strconv.

(** ** Go standard library: [path/filepath] on Unix *)

Module filepath.

(** [filepath.IsAbs]. *)
Definition IsAbs (path : string) : bool := strings.HasPrefix path "/".

(** One step of the element loop of [Clean]; [out] holds the elements
    written so far, last one first.  A [..] element removes the last
    real element; where there is none it is dropped for a rooted path and
    kept for a relative one. *)
Definition clean_step (rooted : bool) (out : list string) (elem : string)
  : list string :=
  if decide (elem = "") then out
  else if decide (elem = ".") then out
  else if decide (elem = "..") then
    match out with
    | top :: out' =>
        if decide (top = "..") then elem :: out else out'
    | [] => if rooted then out else [elem]
    end
  else elem :: out.

(** [filepath.Clean]. *)
Definition Clean (path : string) : string :=
  if decide (path = "") then "."
  else
    let rooted := IsAbs path in
    let out := foldl (clean_step rooted) [] (strings.Split path "/") in
    let body := String.concat "/" (rev out) in
    if rooted then "/" +:+ body
    else if decide (body = "") then "." else body.

(** [filepath.Join] of two elements. *)
Definition Join (a b : string) : string :=
  if decide (a = "") then (if decide (b = "") then "" else Clean b)
  else Clean (a +:+ "/" +:+ b).

(** [filepath.Abs]: [getwd] is the result of [os.Getwd], [None] when it
    fails; that is the only way [Abs] fails. *)
Definition Abs (getwd : option string) (path : string) : option string :=
  if IsAbs path then Some (Clean path)
  else wd ← getwd; Some (Join wd path).

(** Index just after the last separator of [path]. *)
Fixpoint after_last_slash (path : string) : nat :=
  match path with
  | EmptyString => 0%nat
  | String c s' =>
      match after_last_slash s' with
      | S i => S (S i)
      | O => if Ascii.eqb c "/" then 1%nat else 0%nat
      end
  end.

(** [filepath.Dir]. *)
Definition Dir (path : string) : string :=
  Clean (strings.take (after_last_slash path) path).

End filepath.

(** ** [gopkg.in/go-playground/validator.v9]

    The part of the validator that the struct tags of this package use:
    the tag grammar (validations separated by a comma, alternatives by a
    vertical bar, a parameter after an equals sign), [omitempty], and the
    baked-in validations [required], [eq], [gt], [gte], [lte] and [min]. *)

Module validator.

(** The value of a struct field, by kind. *)
Inductive Value :=
| VString (s : string)
| VInt (i : Z)
| VUint (u : Z)
| VBool (b : bool)
| VStrings (l : list string).

(** A struct field as reflection presents it: its name, its [validate]
    tag (empty when it has none) and its current value. *)
Record Field := mkField { f_name : string; f_tag : string; f_value : Value }.

(** A parsed tag: [omitempty], or a block of one validation or several
    alternatives, each a validation name with its parameter. *)
Inductive cTag :=
| TagOmitEmpty
| TagBlock (actual : string) (alts : list (string * string)).

Definition parse_alt (o : string) : string * string :=
  match strings.SplitN o "=" 2 with
  | [name; param] => (name, param)
  | _ => (o, "")
  end.

(** [parseFieldTagsRecursive]. *)
Definition parseFieldTags (tag : string) : list cTag :=
  if decide (tag = "") then []
  else
    (λ t, if decide (t = "omitempty") then TagOmitEmpty
          else TagBlock t (parse_alt <$> strings.Split t "|"))
    <$> strings.Split tag ",".

(** [hasValue]: the field is not the zero value of its kind (a nil and an
    empty slice are not told apart here; no tagged field is a slice). *)
Definition hasValue (v : Value) : bool :=
  match v with
  | VString s => negb (String.eqb s "")
  | VInt i => negb (i =? 0)
  | VUint u => negb (u =? 0)
  | VBool b => b
  | VStrings l => negb (Nat.eqb (length l) 0)
  end.

(** The quantity the ordering validations compare: the rune count of a
    string, the length of a slice, the number itself.  Booleans have
    none (the validator panics on them). *)
Definition magnitude (v : Value) : option Z :=
  match v with
  | VString s => Some (utf8.RuneCountInString s)
  | VInt i => Some i
  | VUint u => Some u
  | VStrings l => Some (Z.of_nat (length l))
  | VBool _ => None
  end.

Definition compare_with (op : Z → Z → bool) (v : Value) (param : string)
  : option bool :=
  m ← magnitude v; p ← strconv.ParseInt param; Some (op m p).

(** [isEq]: strings are compared with the parameter itself. *)
Definition isEq (v : Value) (param : string) : option bool :=
  match v with
  | VString s => Some (String.eqb s param)
  | _ => compare_with Z.eqb v param
  end.

(** The table of baked-in validations.  The outer [None] is an undefined
    validation name, the inner one a run-time panic of the validation
    (a parameter that is not a number, a kind it does not handle). *)
Definition bakedInValidators (name : string)
  : option (Value → string → option bool) :=
  if decide (name = "required") then Some (λ v _, Some (hasValue v))
  else if decide (name = "eq") then Some isEq
  else if decide (name = "gt") then Some (compare_with Z.gtb)
  else if decide (name = "gte") then Some (compare_with Z.geb)
  else if decide (name = "min") then Some (compare_with Z.geb)
  else if decide (name = "lte") then Some (compare_with Z.leb)
  else None.

(** Alternatives are tried from the left; the first that holds wins. *)
Fixpoint run_alts (v : Value) (alts : list (string * string)) : option bool :=
  match alts with
  | [] => Some false
  | (name, param) :: rest =>
      fn ← bakedInValidators name;
      ok ← fn v param;
      if (ok : bool) then Some true else run_alts v rest
  end.

(** The outcome of validating one field or one struct: the validator
    panicked, or it returned the list of failures (field name, tag). *)
Inductive Result :=
| Panicked
| Errors (errs : list (string * string)).

(** The tag loop of [traverseField]: [None] is a panic, [Some None]
    success, [Some (Some tag)] the failed tag. *)
Fixpoint traverse (v : Value) (cts : list cTag) : option (option string) :=
  match cts with
  | [] => Some None
  | TagOmitEmpty :: rest =>
      if hasValue v then traverse v rest else Some None
  | TagBlock actual alts :: rest =>
      ok ← run_alts v alts;
      if (ok : bool) then traverse v rest else Some (Some actual)
  end.

(** Every validation named in a tag must be defined: the tag is parsed in
    full before any field is checked. *)
Definition defined (cts : list cTag) : bool :=
  forallb (λ ct, match ct with
                 | TagOmitEmpty => true
                 | TagBlock _ alts =>
                     forallb (λ a, bool_decide (is_Some (bakedInValidators a.1))) alts
                 end) cts.

Definition validate_field (f : Field) : Result :=
  let cts := parseFieldTags (f_tag f) in
  if defined cts then
    match traverse (f_value f) cts with
    | None => Panicked
    | Some None => Errors []
    | Some (Some tag) => Errors [(f_name f, tag)]
    end
  else Panicked.

(** [Validate.Struct]: all fields are checked, the failures
    collected; the result is an error exactly when there is one. *)
Fixpoint Struct (fs : list Field) : Result :=
  match fs with
  | [] => Errors []
  | f :: rest =>
      match validate_field f, Struct rest with
      | Errors e1, Errors e2 => Errors (e1 ++ e2)
      | _, _ => Panicked
      end
  end.

End validator.

(** ** The configuration records of [conf.go] *)

Import validator.

Record database := {
  database_Type : string;
  database_User : string;
  database_Password : string;
  database_Host : string;
  database_Name : string;
  database_TablePrefix : string;
  database_DBFile : string;
  database_Port : Z;
  database_Charset : string;
}.

Record system := {
  system_Mode : string;
  system_Listen : string;
  system_Debug : bool;
  system_SessionSecret : string;
  system_HashIDSalt : string;
}.

Record ssl := {
  ssl_CertPath : string;
  ssl_KeyPath : string;
  ssl_Listen : string;
}.

Record unix := { unix_Listen : string }.

Record slave := {
  slave_Secret : string;
  slave_CallbackTimeout : Z;
  slave_SignatureTTL : Z;
}.

Record captcha := {
  captcha_Height : Z;
  captcha_Width : Z;
  captcha_Mode : Z;
  captcha_ComplexOfNoiseText : Z;
  captcha_ComplexOfNoiseDot : Z;
  captcha_IsShowHollowLine : bool;
  captcha_IsShowNoiseDot : bool;
  captcha_IsShowNoiseText : bool;
  captcha_IsShowSlimeLine : bool;
  captcha_IsShowSineLine : bool;
  captcha_CaptchaLen : Z;
}.

Record redis := {
  redis_Network : string;
  redis_Server : string;
  redis_Password : string;
  redis_DB : string;
}.

Record thumb := {
  thumb_MaxWidth : Z;
  thumb_MaxHeight : Z;
  thumb_FileSuffix : string;
}.

Record cors := {
  cors_AllowOrigins : list string;
  cors_AllowMethods : list string;
  cors_AllowHeaders : list string;
  cors_AllowCredentials : bool;
  cors_ExposeHeaders : list string;
}.

Record rclone := {
  rclone_Config : string;
  rclone_Binds : list string;
}.

(** What reflection shows of a record: its fields in declaration order,
    each with the [validate] tag written in the source. *)
Class ConfStruct (A : Type) := fields : A → list Field.

#[export] Instance database_fields : ConfStruct database := λ d,
  [ mkField "Type" "" (VString (database_Type d));
    mkField "User" "" (VString (database_User d));
    mkField "Password" "" (VString (database_Password d));
    mkField "Host" "" (VString (database_Host d));
    mkField "Name" "" (VString (database_Name d));
    mkField "TablePrefix" "" (VString (database_TablePrefix d));
    mkField "DBFile" "" (VString (database_DBFile d));
    mkField "Port" "" (VInt (database_Port d));
    mkField "Charset" "" (VString (database_Charset d)) ].

#[export] Instance system_fields : ConfStruct system := λ c,
  [ mkField "Mode" "eq=master|eq=slave" (VString (system_Mode c));
    mkField "Listen" "required" (VString (system_Listen c));
    mkField "Debug" "" (VBool (system_Debug c));
    mkField "SessionSecret" "" (VString (system_SessionSecret c));
    mkField "HashIDSalt" "" (VString (system_HashIDSalt c)) ].

#[export] Instance ssl_fields : ConfStruct ssl := λ c,
  [ mkField "CertPath" "omitempty,required" (VString (ssl_CertPath c));
    mkField "KeyPath" "omitempty,required" (VString (ssl_KeyPath c));
    mkField "Listen" "required" (VString (ssl_Listen c)) ].

#[export] Instance unix_fields : ConfStruct unix := λ c,
  [ mkField "Listen" "" (VString (unix_Listen c)) ].

#[export] Instance slave_fields : ConfStruct slave := λ c,
  [ mkField "Secret" "omitempty,gte=64" (VString (slave_Secret c));
    mkField "CallbackTimeout" "omitempty,gte=1" (VInt (slave_CallbackTimeout c));
    mkField "SignatureTTL" "omitempty,gte=1" (VInt (slave_SignatureTTL c)) ].

#[export] Instance captcha_fields : ConfStruct captcha := λ c,
  [ mkField "Height" "gte=0" (VInt (captcha_Height c));
    mkField "Width" "gte=0" (VInt (captcha_Width c));
    mkField "Mode" "gte=0,lte=3" (VInt (captcha_Mode c));
    mkField "ComplexOfNoiseText" "gte=0,lte=2" (VInt (captcha_ComplexOfNoiseText c));
    mkField "ComplexOfNoiseDot" "gte=0,lte=2" (VInt (captcha_ComplexOfNoiseDot c));
    mkField "IsShowHollowLine" "" (VBool (captcha_IsShowHollowLine c));
    mkField "IsShowNoiseDot" "" (VBool (captcha_IsShowNoiseDot c));
    mkField "IsShowNoiseText" "" (VBool (captcha_IsShowNoiseText c));
    mkField "IsShowSlimeLine" "" (VBool (captcha_IsShowSlimeLine c));
    mkField "IsShowSineLine" "" (VBool (captcha_IsShowSineLine c));
    mkField "CaptchaLen" "gt=0" (VInt (captcha_CaptchaLen c)) ].

#[export] Instance redis_fields : ConfStruct redis := λ c,
  [ mkField "Network" "" (VString (redis_Network c));
    mkField "Server" "" (VString (redis_Server c));
    mkField "Password" "" (VString (redis_Password c));
    mkField "DB" "" (VString (redis_DB c)) ].

#[export] Instance thumb_fields : ConfStruct thumb := λ c,
  [ mkField "MaxWidth" "" (VUint (thumb_MaxWidth c));
    mkField "MaxHeight" "" (VUint (thumb_MaxHeight c));
    mkField "FileSuffix" "min=1" (VString (thumb_FileSuffix c)) ].

#[export] Instance cors_fields : ConfStruct cors := λ c,
  [ mkField "AllowOrigins" "" (VStrings (cors_AllowOrigins c));
    mkField "AllowMethods" "" (VStrings (cors_AllowMethods c));
    mkField "AllowHeaders" "" (VStrings (cors_AllowHeaders c));
    mkField "AllowCredentials" "" (VBool (cors_AllowCredentials c));
    mkField "ExposeHeaders" "" (VStrings (cors_ExposeHeaders c)) ].

#[export] Instance rclone_fields : ConfStruct rclone := λ c,
  [ mkField "Config" "" (VString (rclone_Config c));
    mkField "Binds" "" (VStrings (rclone_Binds c)) ].

(** The entries of the [sections] map of [Init]: a section name and the
    package-level record it is mapped to. *)
Inductive SectionId :=
| SecDatabase | SecSystem | SecSSL | SecUnixSocket | SecCaptcha
| SecRedis | SecThumbnail | SecCORS | SecRClone | SecSlave.

#[export] Instance SectionId_eq_dec : EqDecision SectionId.
Proof. solve_decision. Defined.

Definition all_sections : list SectionId :=
  [ SecDatabase; SecSystem; SecSSL; SecUnixSocket; SecCaptcha;
    SecRedis; SecThumbnail; SecCORS; SecRClone; SecSlave ].

Definition section_name (id : SectionId) : string :=
  match id with
  | SecDatabase => "Database"
  | SecSystem => "System"
  | SecSSL => "SSL"
  | SecUnixSocket => "UnixSocket"
  | SecCaptcha => "Captcha"
  | SecRedis => "Redis"
  | SecThumbnail => "Thumbnail"
  | SecCORS => "CORS"
  | SecRClone => "RClone"
  | SecSlave => "Slave"
  end.

Definition struct_of (id : SectionId) : Type :=
  match id with
  | SecDatabase => database
  | SecSystem => system
  | SecSSL => ssl
  | SecUnixSocket => unix
  | SecCaptcha => captcha
  | SecRedis => redis
  | SecThumbnail => thumb
  | SecCORS => cors
  | SecRClone => rclone
  | SecSlave => slave
  end.

Definition fields_of (id : SectionId) : struct_of id → list Field :=
  match id with
  | SecDatabase => fields
  | SecSystem => fields
  | SecSSL => fields
  | SecUnixSocket => fields
  | SecCaptcha => fields
  | SecRedis => fields
  | SecThumbnail => fields
  | SecCORS => fields
  | SecRClone => fields
  | SecSlave => fields
  end.

(** The package-level configuration records ([DatabaseConfig] and the
    others are declared outside [conf.go]; their initial values are part
    of the state [Init] starts from). *)
Record Configs := {
  DatabaseConfig : database;
  SystemConfig : system;
  SSLConfig : ssl;
  UnixConfig : unix;
  CaptchaConfig : captcha;
  RedisConfig : redis;
  ThumbConfig : thumb;
  CORSConfig : cors;
  RCloneConfig : rclone;
  SlaveConfig : slave;
}.

(** Reading and writing a record through the pointer stored in
    [sections]. *)
Definition get_conf (id : SectionId) (g : Configs) : struct_of id :=
  match id with
  | SecDatabase => DatabaseConfig g
  | SecSystem => SystemConfig g
  | SecSSL => SSLConfig g
  | SecUnixSocket => UnixConfig g
  | SecCaptcha => CaptchaConfig g
  | SecRedis => RedisConfig g
  | SecThumbnail => ThumbConfig g
  | SecCORS => CORSConfig g
  | SecRClone => RCloneConfig g
  | SecSlave => SlaveConfig g
  end.

Definition set_conf (id : SectionId) : struct_of id → Configs → Configs :=
  match id with
  | SecDatabase => λ v g,
      {| DatabaseConfig := v; SystemConfig := SystemConfig g; SSLConfig := SSLConfig g;
         UnixConfig := UnixConfig g; CaptchaConfig := CaptchaConfig g;
         RedisConfig := RedisConfig g; ThumbConfig := ThumbConfig g;
         CORSConfig := CORSConfig g; RCloneConfig := RCloneConfig g;
         SlaveConfig := SlaveConfig g |}
  | SecSystem => λ v g,
      {| DatabaseConfig := DatabaseConfig g; SystemConfig := v; SSLConfig := SSLConfig g;
         UnixConfig := UnixConfig g; CaptchaConfig := CaptchaConfig g;
         RedisConfig := RedisConfig g; ThumbConfig := ThumbConfig g;
         CORSConfig := CORSConfig g; RCloneConfig := RCloneConfig g;
         SlaveConfig := SlaveConfig g |}
  | SecSSL => λ v g,
      {| DatabaseConfig := DatabaseConfig g; SystemConfig := SystemConfig g; SSLConfig := v;
         UnixConfig := UnixConfig g; CaptchaConfig := CaptchaConfig g;
         RedisConfig := RedisConfig g; ThumbConfig := ThumbConfig g;
         CORSConfig := CORSConfig g; RCloneConfig := RCloneConfig g;
         SlaveConfig := SlaveConfig g |}
  | SecUnixSocket => λ v g,
      {| DatabaseConfig := DatabaseConfig g; SystemConfig := SystemConfig g;
         SSLConfig := SSLConfig g; UnixConfig := v; CaptchaConfig := CaptchaConfig g;
         RedisConfig := RedisConfig g; ThumbConfig := ThumbConfig g;
         CORSConfig := CORSConfig g; RCloneConfig := RCloneConfig g;
         SlaveConfig := SlaveConfig g |}
  | SecCaptcha => λ v g,
      {| DatabaseConfig := DatabaseConfig g; SystemConfig := SystemConfig g;
         SSLConfig := SSLConfig g; UnixConfig := UnixConfig g; CaptchaConfig := v;
         RedisConfig := RedisConfig g; ThumbConfig := ThumbConfig g;
         CORSConfig := CORSConfig g; RCloneConfig := RCloneConfig g;
         SlaveConfig := SlaveConfig g |}
  | SecRedis => λ v g,
      {| DatabaseConfig := DatabaseConfig g; SystemConfig := SystemConfig g;
         SSLConfig := SSLConfig g; UnixConfig := UnixConfig g;
         CaptchaConfig := CaptchaConfig g; RedisConfig := v; ThumbConfig := ThumbConfig g;
         CORSConfig := CORSConfig g; RCloneConfig := RCloneConfig g;
         SlaveConfig := SlaveConfig g |}
  | SecThumbnail => λ v g,
      {| DatabaseConfig := DatabaseConfig g; SystemConfig := SystemConfig g;
         SSLConfig := SSLConfig g; UnixConfig := UnixConfig g;
         CaptchaConfig := CaptchaConfig g; RedisConfig := RedisConfig g; ThumbConfig := v;
         CORSConfig := CORSConfig g; RCloneConfig := RCloneConfig g;
         SlaveConfig := SlaveConfig g |}
  | SecCORS => λ v g,
      {| DatabaseConfig := DatabaseConfig g; SystemConfig := SystemConfig g;
         SSLConfig := SSLConfig g; UnixConfig := UnixConfig g;
         CaptchaConfig := CaptchaConfig g; RedisConfig := RedisConfig g;
         ThumbConfig := ThumbConfig g; CORSConfig := v; RCloneConfig := RCloneConfig g;
         SlaveConfig := SlaveConfig g |}
  | SecRClone => λ v g,
      {| DatabaseConfig := DatabaseConfig g; SystemConfig := SystemConfig g;
         SSLConfig := SSLConfig g; UnixConfig := UnixConfig g;
         CaptchaConfig := CaptchaConfig g; RedisConfig := RedisConfig g;
         ThumbConfig := ThumbConfig g; CORSConfig := CORSConfig g; RCloneConfig := v;
         SlaveConfig := SlaveConfig g |}
  | SecSlave => λ v g,
      {| DatabaseConfig := DatabaseConfig g; SystemConfig := SystemConfig g;
         SSLConfig := SSLConfig g; UnixConfig := UnixConfig g;
         CaptchaConfig := CaptchaConfig g; RedisConfig := RedisConfig g;
         ThumbConfig := ThumbConfig g; CORSConfig := CORSConfig g;
         RCloneConfig := RCloneConfig g; SlaveConfig := v |}
  end.

(** ** The state of the process *)

(** An [afero.Fs]: the local file system ([afero.NewOsFs]), an RClone
    remote ([rclonefs.NewRCloneFs target]) or a bind-path file system over
    a table of bind points ([rclonefs.NewBindPathFs]). *)
#[warnings="-register-all"]
Inductive Fs :=
| OsFs
| RCloneFs (target : string)
| BindPathFs (bindPoints : gmap string Fs).

(** What the file system holds at a path. *)
Inductive Node :=
| Dir
| File (content : string).

(** A parsed configuration document: section name to key/value pairs. *)
Definition IniSection := list (string * string).
Definition IniFile := list (string * IniSection).

Inductive error :=
| ErrOS (msg : string)
| ErrParse (msg : string)
| ErrMapTo (msg : string)
| ValidationErrors (errs : list (string * string)).

Inductive LogLevel := LevelError | LevelWarning | LevelInformational | LevelDebug.

(** The messages of [conf.go], one constructor for each format string,
    with its arguments. *)
Inductive LogMsg :=
| MsgCreateFailed (err : error)
| MsgWriteFailed (err : error)
| MsgParseFailed (path : string) (err : error)
| MsgSectionFailed (sectionName : string) (err : error)
| MsgUnsupportedOS (goos : string)
| MsgRCloneConfigNotFound (config : string)
| MsgRCloneBind (remote loc : string)
| MsgAbsFailed (loc : string)
| MsgBadBind (kv : string).

(** Severity with which a message is handed to the logger. *)
Inductive Severity := SevPanic | SevWarning | SevInfo.

(** The calls the package makes on its collaborators, in order. *)
Inductive Event :=
| EvLog (sev : Severity) (msg : LogMsg)
| EvCreate (path : string)
| EvWrite (fd : nat) (data : string)
| EvClose (fd : nat)
| EvSetConfigPath (config : string)
| EvNewRCloneFs (target : string).

(** Why the process stopped: a [Panic] of the logger, or a run-time
    panic of Go itself. *)
Inductive PanicValue :=
| PanicLog (msg : LogMsg)
| PanicIndexOutOfRange (index len : Z)
| PanicNilDereference
| PanicValidator.

Record World := {
  nodes : gmap string Node;          (* the file system *)
  handles : gmap nat string;         (* open file handles and their paths *)
  next_fd : nat;
  rand_pos : nat;                    (* draws taken from the random source *)
  cfg : option IniFile;              (* var cfg *ini.File *)
  conf : Configs;                    (* DatabaseConfig ... SlaveConfig *)
  util_Level : LogLevel;             (* util.Level *)
  util_GloablLogger : option LogLevel; (* util.GloablLogger, with its level *)
  util_OS : Fs;                      (* util.OS *)
  rclone_ConfigPath : option string; (* the path given to rclonefs *)
  trace : list Event;                (* calls made so far, oldest first *)
}.

Definition set_nodes (f : gmap string Node → gmap string Node) (w : World) : World :=
  {| nodes := f (nodes w); handles := handles w; next_fd := next_fd w;
     rand_pos := rand_pos w; cfg := cfg w; conf := conf w; util_Level := util_Level w;
     util_GloablLogger := util_GloablLogger w; util_OS := util_OS w;
     rclone_ConfigPath := rclone_ConfigPath w; trace := trace w |}.

Definition set_handles (f : gmap nat string → gmap nat string) (w : World) : World :=
  {| nodes := nodes w; handles := f (handles w); next_fd := next_fd w;
     rand_pos := rand_pos w; cfg := cfg w; conf := conf w; util_Level := util_Level w;
     util_GloablLogger := util_GloablLogger w; util_OS := util_OS w;
     rclone_ConfigPath := rclone_ConfigPath w; trace := trace w |}.

Definition set_next_fd (n : nat) (w : World) : World :=
  {| nodes := nodes w; handles := handles w; next_fd := n;
     rand_pos := rand_pos w; cfg := cfg w; conf := conf w; util_Level := util_Level w;
     util_GloablLogger := util_GloablLogger w; util_OS := util_OS w;
     rclone_ConfigPath := rclone_ConfigPath w; trace := trace w |}.

Definition set_rand_pos (n : nat) (w : World) : World :=
  {| nodes := nodes w; handles := handles w; next_fd := next_fd w;
     rand_pos := n; cfg := cfg w; conf := conf w; util_Level := util_Level w;
     util_GloablLogger := util_GloablLogger w; util_OS := util_OS w;
     rclone_ConfigPath := rclone_ConfigPath w; trace := trace w |}.

Definition set_cfg (c : option IniFile) (w : World) : World :=
  {| nodes := nodes w; handles := handles w; next_fd := next_fd w;
     rand_pos := rand_pos w; cfg := c; conf := conf w; util_Level := util_Level w;
     util_GloablLogger := util_GloablLogger w; util_OS := util_OS w;
     rclone_ConfigPath := rclone_ConfigPath w; trace := trace w |}.

Definition set_confs (f : Configs → Configs) (w : World) : World :=
  {| nodes := nodes w; handles := handles w; next_fd := next_fd w;
     rand_pos := rand_pos w; cfg := cfg w; conf := f (conf w); util_Level := util_Level w;
     util_GloablLogger := util_GloablLogger w; util_OS := util_OS w;
     rclone_ConfigPath := rclone_ConfigPath w; trace := trace w |}.

Definition set_Level (l : LogLevel) (w : World) : World :=
  {| nodes := nodes w; handles := handles w; next_fd := next_fd w;
     rand_pos := rand_pos w; cfg := cfg w; conf := conf w; util_Level := l;
     util_GloablLogger := util_GloablLogger w; util_OS := util_OS w;
     rclone_ConfigPath := rclone_ConfigPath w; trace := trace w |}.

Definition set_GloablLogger (l : option LogLevel) (w : World) : World :=
  {| nodes := nodes w; handles := handles w; next_fd := next_fd w;
     rand_pos := rand_pos w; cfg := cfg w; conf := conf w; util_Level := util_Level w;
     util_GloablLogger := l; util_OS := util_OS w;
     rclone_ConfigPath := rclone_ConfigPath w; trace := trace w |}.

Definition set_OS (fs : Fs) (w : World) : World :=
  {| nodes := nodes w; handles := handles w; next_fd := next_fd w;
     rand_pos := rand_pos w; cfg := cfg w; conf := conf w; util_Level := util_Level w;
     util_GloablLogger := util_GloablLogger w; util_OS := fs;
     rclone_ConfigPath := rclone_ConfigPath w; trace := trace w |}.

Definition set_ConfigPath (p : option string) (w : World) : World :=
  {| nodes := nodes w; handles := handles w; next_fd := next_fd w;
     rand_pos := rand_pos w; cfg := cfg w; conf := conf w; util_Level := util_Level w;
     util_GloablLogger := util_GloablLogger w; util_OS := util_OS w;
     rclone_ConfigPath := p; trace := trace w |}.

Definition emit (e : Event) (w : World) : World :=
  {| nodes := nodes w; handles := handles w; next_fd := next_fd w;
     rand_pos := rand_pos w; cfg := cfg w; conf := conf w; util_Level := util_Level w;
     util_GloablLogger := util_GloablLogger w; util_OS := util_OS w;
     rclone_ConfigPath := rclone_ConfigPath w; trace := trace w ++ [e] |}.

(** What the process cannot decide itself: the platform, the working
    directory, the random source, the faults of the operating system, the
    INI library and the iteration order of Go maps. *)
Record Env := {
  GOOS : string;                         (* runtime.GOOS *)
  Getwd : option string;                 (* os.Getwd, None when it fails *)
  rand_Intn : nat → nat;                 (* the i-th draw of rand.Intn *)
  create_fault : string → option error;  (* creating this path fails *)
  create_fault_empty : is_Some (create_fault "");
      (* no file can be created under the empty name: open fails, ENOENT *)
  write_fault : string → option (nat * error);
      (* writing to this path fails after that many bytes *)
  ini_parse : string → error + IniFile;  (* ini.Load on a file content *)
  ini_MapTo : ∀ id, IniSection → struct_of id → struct_of id * option error;
      (* Section.MapTo: the record as it leaves it, and its error *)
  sections_order : list SectionId;       (* range over the sections map *)
  replace_order : bool;                  (* range over the table of util.Replace *)
}.

(** ** Computations: state and panics *)

Inductive Outcome (A : Type) :=
| Returned (a : A) (w : World)
| Panic (p : PanicValue) (w : World).
Arguments Returned {A} a w.
Arguments Panic {A} p w.

Definition M (A : Type) : Type := World → Outcome A.

Definition ret {A} (a : A) : M A := λ w, Returned a w.

Definition bind {A B} (m : M A) (k : A → M B) : M B :=
  λ w, match m w with
       | Returned a w' => k a w'
       | Panic p w' => Panic p w'
       end.

Definition gets {A} (f : World → A) : M A := λ w, Returned (f w) w.
Definition modify (f : World → World) : M unit := λ w, Returned tt (f w).
Definition panic {A} (p : PanicValue) : M A := λ w, Panic p w.

Definition final_world {A} (o : Outcome A) : World :=
  match o with
  | Returned _ w => w
  | Panic _ w => w
  end.

Declare Scope go_scope.
Delimit Scope go_scope with go.
Notation "x <- m ;; k" := (bind m (λ x, k))
  (at level 100, m at next level, right associativity) : go_scope.
Notation "m ;;; k" := (bind m (λ _, k))
  (at level 100, right associativity) : go_scope.
Open Scope go_scope.

(** ** [conf.go] *)

Definition defaultConf : string :=
"[System]
Mode = master
Listen = :5212
SessionSecret = {SessionSecret}
HashIDSalt = {HashIDSalt}
".

Section Conf.

Context (env : Env).

(** *** Collaborators of the package *)

(** Modelled from the spec: [util.Exists], "a filesystem existence
    check" of package [util], which is not part of [conf.go]. *)
Definition util_Exists (name : string) : M bool :=
  gets (λ w, bool_decide (is_Some (nodes w !! name))).

(** Modelled from the spec: [util.Log], the "logging sink with settable
    verbosity" of package [util]: the logger is built on first use with
    the verbosity current at that time.  The trace records every message
    handed to the sink, with its severity. *)
Definition util_Log : M unit :=
  modify (λ w, match util_GloablLogger w with
               | Some _ => w
               | None => set_GloablLogger (Some (util_Level w)) w
               end).

(** Modelled from the spec: [util.Log().Warning] and [util.Log().Info],
    the messages handed to that sink below the fatal level. *)
Definition Log_Warning (msg : LogMsg) : M unit :=
  util_Log ;;; modify (emit (EvLog SevWarning msg)).

Definition Log_Info (msg : LogMsg) : M unit :=
  util_Log ;;; modify (emit (EvLog SevInfo msg)).

(** Modelled from the spec: the "panic/fatal level that terminates the
    process". *)
Definition Log_Panic {A} (msg : LogMsg) : M A :=
  util_Log ;;; modify (emit (EvLog SevPanic msg)) ;;; panic (PanicLog msg).

Definition letterRunes : string :=
  "1234567890abcdefghijklmnopqrstuvwxyzABCDEFGHIJKLMNOPQRSTUVWXYZ".

Definition letter (i : nat) : ascii :=
  default "1"%char (String.get (i mod String.length letterRunes) letterRunes).

Fixpoint rand_letters (pos n : nat) : string :=
  match n with
  | O => EmptyString
  | S k => String (letter (rand_Intn env pos)) (rand_letters (S pos) k)
  end.

(** Modelled from the spec: [util.RandStringRunes], the "random-string
    generator" of package [util]: [n] characters "drawn from an
    alphanumeric alphabet", each from the next draw of the random source. *)
Definition util_RandStringRunes (n : nat) : M string :=
  λ w, Returned (rand_letters (rand_pos w) n) (set_rand_pos (rand_pos w + n)%nat w).

(** Modelled from the spec: [util.Replace], "substituting randomly
    generated secrets into placeholders": every occurrence of each key of
    the table is replaced by its value, one key after the other in the
    order in which the table is ranged over. *)
Definition util_Replace (table : list (string * string)) (s : string) : string :=
  foldl (λ acc kv, strings.ReplaceAll acc kv.1 kv.2) s table.

Definition in_range_order {A} (a b : A) : list A :=
  if replace_order env then [a; b] else [b; a].

(** The path of [dir] and of each directory above it. *)
Fixpoint prefixes_at_slash (pre s : string) : list string :=
  match s with
  | EmptyString => []
  | String c s' =>
      (if Ascii.eqb c "/" && negb (String.eqb pre "") then [pre] else [])
      ++ prefixes_at_slash (pre +:+ String c EmptyString) s'
  end.

Definition ancestors (dir : string) : list string :=
  prefixes_at_slash "" dir ++ [dir].

Definition MkdirAll (dir : string) (m : gmap string Node) : gmap string Node :=
  foldr (λ d m, match m !! d with Some _ => m | None => <[d := Dir]> m end)
        m (ancestors dir).

(** Modelled from the spec: [util.CreatNestedFile], which "creates the
    file (and any missing parent directories)" or fails; it is not part
    of [conf.go].  On success the file is empty and open.  Under the
    empty name it always fails ([create_fault_empty]). *)
Definition util_CreatNestedFile (path : string) : M (error + nat) :=
  match create_fault env path with
  | Some err => ret (inl err)
  | None =>
      fd <- gets next_fd ;;
      modify (emit (EvCreate path)) ;;;
      modify (set_nodes (λ m, <[path := File ""]> (MkdirAll (filepath.Dir path) m))) ;;;
      modify (set_handles <[fd := path]>) ;;;
      modify (set_next_fd (S fd)) ;;;
      ret (inr fd)
  end.

Definition append_to (data : string) (nd : Node) : Node :=
  match nd with
  | File c => File (c +:+ data)
  | Dir => Dir
  end.

(** [(os.File).WriteString]: the bytes go to the end of the file just
    created; a failing write leaves the bytes written before the fault. *)
Definition WriteString (fd : nat) (data : string) : M (option error) :=
  h <- gets (λ w, handles w !! fd) ;;
  match h with
  | None => ret (Some (ErrOS "file already closed"))
  | Some path =>
      modify (emit (EvWrite fd data)) ;;;
      match write_fault env path with
      | Some (n, err) =>
          modify (set_nodes (alter (append_to (strings.take n data)) path)) ;;;
          ret (Some err)
      | None =>
          modify (set_nodes (alter (append_to data) path)) ;;;
          ret None
      end
  end.

(** [(os.File).Close]. *)
Definition Close (fd : nat) : M unit :=
  modify (emit (EvClose fd)) ;;; modify (set_handles (delete fd)).

(** [ini.Load path]: the file is read and handed to the parser. *)
Definition ini_Load (path : string) : M (error + IniFile) :=
  nd <- gets (λ w, nodes w !! path) ;;
  match nd with
  | Some (File content) => ret (ini_parse env content)
  | _ => ret (inl (ErrOS "open: no such file"))
  end.

(** [(ini.File).Section name]: the keys of the section.  For a name the
    document does not have, the library adds an empty section to the
    document and returns it, so the keys are none.  [cfg] stands for the
    document as it was parsed; the empty sections added here are not
    recorded in it. *)
Definition ini_Section (f : IniFile) (name : string) : IniSection :=
  default [] (snd <$> List.find (λ p, String.eqb p.1 name) f).

(** [rclonefs.SetConfigPath]; the code ignores its result. *)
Definition rclonefs_SetConfigPath (config : string) : M unit :=
  modify (emit (EvSetConfigPath config)) ;;;
  modify (set_ConfigPath (Some config)).

(** [rclonefs.NewRCloneFs]. *)
Definition rclonefs_NewRCloneFs (target : string) : M Fs :=
  modify (emit (EvNewRCloneFs target)) ;;; ret (RCloneFs target).

(** *** [mapSection] *)

(** [mapSection(section, confStruct)] for the entry [id] of [sections]:
    the section [section_name id] is mapped onto the record behind the
    pointer, then the record is validated. *)
Definition mapSection (id : SectionId) : M (option error) :=
  c <- gets cfg ;;
  match c with
  | None => panic PanicNilDereference
  | Some f =>
      g <- gets conf ;;
      let '(v, err) := ini_MapTo env id (ini_Section f (section_name id)) (get_conf id g) in
      modify (set_confs (set_conf id v)) ;;;
      match err with
      | Some e => ret (Some e)
      | None =>
          match validator.Struct (fields_of id v) with
          | Panicked => panic PanicValidator
          | Errors [] => ret None
          | Errors errs => ret (Some (ValidationErrors errs))
          end
      end
  end.

(** *** [initRCloneBind] *)

(** One iteration of the loop over [RCloneConfig.Binds]; [None] is the
    [return] out of the function. *)
Definition bind_entry (kv : string) (bindPoints : gmap string Fs)
  : M (option (gmap string Fs)) :=
  match strings.SplitN kv ":" 2 with
  | [b0; b1] =>
      Log_Info (MsgRCloneBind b1 b0) ;;;
      match filepath.Abs (Getwd env) b0 with
      | Some target =>
          fs <- rclonefs_NewRCloneFs b1 ;;
          ret (Some (<[target := fs]> bindPoints))
      | None =>
          Log_Warning (MsgAbsFailed b0) ;;;
          ret (Some bindPoints)
      end
  | _ =>
      Log_Warning (MsgBadBind kv) ;;;
      ret None
  end.

Fixpoint bind_loop (binds : list string) (bindPoints : gmap string Fs)
  : M (option (gmap string Fs)) :=
  match binds with
  | [] => ret (Some bindPoints)
  | kv :: rest =>
      r <- bind_entry kv bindPoints ;;
      match r with
      | None => ret None
      | Some bindPoints' => bind_loop rest bindPoints'
      end
  end.

Definition initRCloneBind : M unit :=
  if negb (String.eqb (GOOS env) "linux") then
    Log_Warning (MsgUnsupportedOS (GOOS env))
  else
    rc <- gets (λ w, RCloneConfig (conf w)) ;;
    match rclone_Binds rc with
    | [] => panic (PanicIndexOutOfRange 0 0)
    | first :: _ =>
        if String.eqb first "UNSET" then ret tt
        else
          ok <- util_Exists (rclone_Config rc) ;;
          if (ok : bool) then
            rclonefs_SetConfigPath (rclone_Config rc) ;;;
            r <- bind_loop (rclone_Binds rc) {[ "/" := OsFs ]} ;;
            match r with
            | None => ret tt
            | Some bindPoints => modify (set_OS (BindPathFs bindPoints))
            end
          else
            Log_Warning (MsgRCloneConfigNotFound (rclone_Config rc))
    end.

(** *** [Init] *)

(** Lines 112 to 130: the configuration file is created when the path is
    empty or nothing exists there. *)
Definition materialize (path : string) : M unit :=
  ex <- util_Exists path ;;
  if String.eqb path "" || negb ex then
    sessionSecret <- util_RandStringRunes 64 ;;
    hashIDSalt <- util_RandStringRunes 64 ;;
    let confContent :=
      util_Replace (in_range_order ("{SessionSecret}", sessionSecret)
                                   ("{HashIDSalt}", hashIDSalt))
                   defaultConf in
    r <- util_CreatNestedFile path ;;
    match r with
    | inl err => Log_Panic (MsgCreateFailed err)
    | inr f =>
        werr <- WriteString f confContent ;;
        match werr with
        | Some err => Log_Panic (MsgWriteFailed err)
        | None => Close f
        end
    end
  else ret tt.

(** Lines 132 to 135. *)
Definition load (path : string) : M unit :=
  r <- ini_Load path ;;
  match r with
  | inl err => modify (set_cfg None) ;;; Log_Panic (MsgParseFailed path err)
  | inr f => modify (set_cfg (Some f))
  end.

(** Lines 149 to 154, over the sections in the order of the range. *)
Fixpoint map_sections (ids : list SectionId) : M unit :=
  match ids with
  | [] => ret tt
  | id :: rest =>
      err <- mapSection id ;;
      match err with
      | Some e => Log_Panic (MsgSectionFailed (section_name id) e)
      | None => map_sections rest
      end
  end.

(** Lines 157 to 161. *)
Definition reset_log_level : M unit :=
  sc <- gets (λ w, SystemConfig (conf w)) ;;
  if negb (system_Debug sc) then
    modify (set_Level LevelInformational) ;;;
    modify (set_GloablLogger None) ;;;
    util_Log
  else ret tt.

Definition Init (path : string) : M unit :=
  materialize path ;;;
  load path ;;;
  map_sections (sections_order env) ;;;
  reset_log_level ;;;
  initRCloneBind.

End Conf.

(** ** A concrete process state

    A run on Linux with the default records of a fresh installation and
    an INI library that finds no section in the file; used to evaluate the
    definitions on concrete inputs. *)

Module Sample.

Definition env : Env := {|
  GOOS := "linux";
  Getwd := Some "/srv/cloudreve";
  rand_Intn := λ i, (7 * i + 3)%nat;
  create_fault := λ p, if String.eqb p "" then Some (ErrOS "open : no such file or directory")
                       else None;
  create_fault_empty := ltac:(by eexists);
  write_fault := λ _, None;
  ini_parse := λ _, inr [];
  ini_MapTo := λ _ _ v, (v, None);
  sections_order := all_sections;
  replace_order := true;
|}.

Definition configs (binds : list string) : Configs := {|
  DatabaseConfig := {| database_Type := "UNSET"; database_User := "";
                       database_Password := ""; database_Host := "";
                       database_Name := ""; database_TablePrefix := "";
                       database_DBFile := "cloudreve.db"; database_Port := 3306;
                       database_Charset := "utf8" |};
  SystemConfig := {| system_Mode := "master"; system_Listen := ":5212";
                     system_Debug := false; system_SessionSecret := "";
                     system_HashIDSalt := "" |};
  SSLConfig := {| ssl_CertPath := ""; ssl_KeyPath := ""; ssl_Listen := ":443" |};
  UnixConfig := {| unix_Listen := "" |};
  CaptchaConfig := {| captcha_Height := 60; captcha_Width := 240; captcha_Mode := 3;
                      captcha_ComplexOfNoiseText := 0; captcha_ComplexOfNoiseDot := 0;
                      captcha_IsShowHollowLine := false; captcha_IsShowNoiseDot := false;
                      captcha_IsShowNoiseText := false; captcha_IsShowSlimeLine := false;
                      captcha_IsShowSineLine := false; captcha_CaptchaLen := 6 |};
  RedisConfig := {| redis_Network := "tcp"; redis_Server := "";
                    redis_Password := ""; redis_DB := "0" |};
  ThumbConfig := {| thumb_MaxWidth := 400; thumb_MaxHeight := 300;
                    thumb_FileSuffix := "._thumb" |};
  CORSConfig := {| cors_AllowOrigins := ["UNSET"];
                   cors_AllowMethods := ["PUT"; "POST"; "GET"; "OPTIONS"];
                   cors_AllowHeaders := ["Cookie"; "Content-Type"];
                   cors_AllowCredentials := false; cors_ExposeHeaders := [] |};
  RCloneConfig := {| rclone_Config := "/etc/rclone.conf"; rclone_Binds := binds |};
  SlaveConfig := {| slave_Secret := ""; slave_CallbackTimeout := 20;
                    slave_SignatureTTL := 60 |};
|}.

(** The file system holds [/etc/rclone.conf] and, when [ini] is given,
    a configuration file [/srv/cloudreve/conf.ini] with that content. *)
Definition world (binds : list string) (ini : option string) : World := {|
  nodes :=
    let base : gmap string Node :=
      {[ "/etc" := Dir; "/etc/rclone.conf" := File "[remote]"; "/srv" := Dir;
         "/srv/cloudreve" := Dir ]} in
    match ini with
    | Some content => <[ "/srv/cloudreve/conf.ini" := File content ]> base
    | None => base
    end;
  handles := ∅;
  next_fd := 3;
  rand_pos := 0;
  cfg := None;
  conf := configs binds;
  util_Level := LevelDebug;
  util_GloablLogger := None;
  util_OS := OsFs;
  rclone_ConfigPath := None;
  trace := [];
|}.

Definition conf_path : string := "/srv/cloudreve/conf.ini".

(** The same process where [os.Getwd] fails. *)
Definition env_no_wd : Env := {|
  GOOS := "linux";
  Getwd := None;
  rand_Intn := rand_Intn env;
  create_fault := create_fault env;
  create_fault_empty := create_fault_empty env;
  write_fault := write_fault env;
  ini_parse := ini_parse env;
  ini_MapTo := ini_MapTo env;
  sections_order := sections_order env;
  replace_order := replace_order env;
|}.

(** The same process on a full disk: every write fails at once. *)
Definition env_disk_full : Env := {|
  GOOS := "linux";
  Getwd := Getwd env;
  rand_Intn := rand_Intn env;
  create_fault := create_fault env;
  create_fault_empty := create_fault_empty env;
  write_fault := λ _, Some (0%nat, ErrOS "no space left on device");
  ini_parse := ini_parse env;
  ini_MapTo := ini_MapTo env;
  sections_order := sections_order env;
  replace_order := replace_order env;
|}.

End Sample.


(** ** Events added by a step *)

(** The events a step added to the trace of the world it started from. *)
Definition new_events (w w' : World) : list Event :=
  drop (length (trace w)) (trace w').

(** A warning was logged. *)
Definition warns (evs : list Event) : Prop := ∃ msg, In (EvLog SevWarning msg) evs.

Lemma new_events_app w w' evs : trace w' = trace w ++ evs → new_events w w' = evs.
Proof. unfold new_events. intros ->. by rewrite drop_app_length. Qed.

Lemma new_events_refl w : new_events w w = [].
Proof. apply new_events_app. by rewrite app_nil_r. Qed.

(** The logger is built on first use. *)
Definition touch_logger (w : World) : World :=
  match util_GloablLogger w with
  | Some _ => w
  | None => set_GloablLogger (Some (util_Level w)) w
  end.

Section Logging.

Context (env : Env).

Lemma Log_Warning_eq msg w :
  Log_Warning msg w = Returned tt (emit (EvLog SevWarning msg) (touch_logger w)).
Proof. reflexivity. Qed.

Lemma Log_Info_eq msg w :
  Log_Info msg w = Returned tt (emit (EvLog SevInfo msg) (touch_logger w)).
Proof. reflexivity. Qed.

Lemma Log_Panic_eq {A} msg w :
  Log_Panic (A := A) msg w
  = Panic (PanicLog msg) (emit (EvLog SevPanic msg) (touch_logger w)).
Proof. reflexivity. Qed.

Lemma touch_logger_frame w :
  nodes (touch_logger w) = nodes w ∧ handles (touch_logger w) = handles w
  ∧ conf (touch_logger w) = conf w ∧ util_OS (touch_logger w) = util_OS w
  ∧ rclone_ConfigPath (touch_logger w) = rclone_ConfigPath w
  ∧ trace (touch_logger w) = trace w ∧ rand_pos (touch_logger w) = rand_pos w
  ∧ next_fd (touch_logger w) = next_fd w ∧ cfg (touch_logger w) = cfg w.
Proof. unfold touch_logger. by destruct (util_GloablLogger w). Qed.

End Logging.

(** ** Splitting at the first colon *)

Lemma HasPrefix_nil s : strings.HasPrefix s "" = true.
Proof. by destruct s. Qed.

Lemma HasPrefix_colon c s : strings.HasPrefix (String c s) ":" = Ascii.eqb c ":".
Proof. simpl. by rewrite HasPrefix_nil, andb_true_r. Qed.

Lemma SplitN_2_Index s sep :
  strings.SplitN s sep 2
  = match strings.Index s sep with
    | None => [s]
    | Some m => [strings.take m s; strings.drop (m + String.length sep) s]
    end.
Proof.
  unfold strings.SplitN. simpl.
  change (Pos.to_nat 1) with 1%nat. simpl.
  by destruct (strings.Index s sep).
Qed.

(** The first colon of [s] is at [m]: the part before it has no colon,
    and [s] is that part, the colon, and the rest. *)
Lemma Index_colon_Some s : ∀ m,
  strings.Index s ":" = Some m →
  s = strings.take m s +:+ ":" +:+ strings.drop (m + 1) s
  ∧ strings.Index (strings.take m s) ":" = None.
Proof.
  induction s as [|c s IH]; intros m.
  - discriminate.
  - cbn [strings.Index]. rewrite HasPrefix_colon.
    destruct (Ascii.eqb_spec c ":") as [->|Hc].
    + intros [= <-]. done.
    + destruct (strings.Index s ":") as [k|] eqn:Hk; [|discriminate].
      intros [= <-]. destruct (IH k eq_refl) as [Hs Hpre].
      split.
      * exact (f_equal (String c) Hs).
      * cbn [strings.take strings.Index]. rewrite HasPrefix_colon.
        destruct (Ascii.eqb_spec c ":"); [done|]. by rewrite Hpre.
Qed.

(** [s] contains a colon. *)
Definition has_colon (s : string) : Prop := is_Some (strings.Index s ":").

#[export] Instance has_colon_dec s : Decision (has_colon s).
Proof. unfold has_colon. apply _. Defined.

Lemma SplitN_colon_has s :
  has_colon s →
  ∃ loc remote, strings.SplitN s ":" 2 = [loc; remote]
    ∧ s = loc +:+ ":" +:+ remote ∧ ¬ has_colon loc.
Proof.
  intros [m Hm]. rewrite SplitN_2_Index, Hm.
  destruct (Index_colon_Some s m Hm) as [Hs Hpre].
  eexists _, _. split; [done|]. split; [exact Hs|].
  unfold has_colon. rewrite Hpre. by intros [? ?].
Qed.

Lemma SplitN_colon_none s :
  ¬ has_colon s → strings.SplitN s ":" 2 = [s].
Proof.
  intros Hn. rewrite SplitN_2_Index.
  destruct (strings.Index s ":") eqn:E; [|done].
  exfalso. apply Hn. unfold has_colon. rewrite E. by eexists.
Qed.

Lemma SplitN_colon_two s loc remote :
  strings.SplitN s ":" 2 = [loc; remote] → has_colon s.
Proof.
  rewrite SplitN_2_Index. unfold has_colon.
  destruct (strings.Index s ":"); [by eexists | discriminate].
Qed.

Lemma UNSET_no_colon : ¬ has_colon "UNSET".
Proof. by intros [? [=]]. Qed.

(** Runs a straight-line step that only logs and records events, whether
    or not the logger exists already, and closes the frame conditions. *)
Ltac run_logged w :=
  let E := fresh "E" in
  unfold Log_Warning, Log_Info, Log_Panic, util_Log, rclonefs_NewRCloneFs,
    rclonefs_SetConfigPath, bind, modify, ret, gets, panic;
  destruct (util_GloablLogger w) eqn:E;
  repeat (cbn; rewrite ?E);
  (eexists; split; [reflexivity|]);
  cbn; rewrite <- ?app_assoc; repeat split; reflexivity.

(** ** The bind loop, entry by entry *)

Section BindLoop.

Context (env : Env).

(** The table after the entry [kv], [None] when the entry makes the
    function return. *)
Definition entry_table (kv : string) (bindPoints : gmap string Fs)
  : option (gmap string Fs) :=
  match strings.SplitN kv ":" 2 with
  | [b0; b1] =>
      Some (match filepath.Abs (Getwd env) b0 with
            | Some target => <[target := RCloneFs b1]> bindPoints
            | None => bindPoints
            end)
  | _ => None
  end.

(** The events of the entry [kv]. *)
Definition entry_events (kv : string) : list Event :=
  match strings.SplitN kv ":" 2 with
  | [b0; b1] =>
      EvLog SevInfo (MsgRCloneBind b1 b0)
      :: match filepath.Abs (Getwd env) b0 with
         | Some _ => [EvNewRCloneFs b1]
         | None => [EvLog SevWarning (MsgAbsFailed b0)]
         end
  | _ => [EvLog SevWarning (MsgBadBind kv)]
  end.

Fixpoint loop_table (binds : list string) (bindPoints : gmap string Fs)
  : option (gmap string Fs) :=
  match binds with
  | [] => Some bindPoints
  | kv :: rest =>
      match entry_table kv bindPoints with
      | None => None
      | Some bindPoints' => loop_table rest bindPoints'
      end
  end.

Fixpoint loop_events (binds : list string) : list Event :=
  match binds with
  | [] => []
  | kv :: rest =>
      entry_events kv
      ++ (if decide (has_colon kv) then loop_events rest else [])
  end.

(** What a step leaves alone when all it does is log and build remote
    handles. *)
Definition same_store (w w' : World) : Prop :=
  nodes w' = nodes w ∧ handles w' = handles w ∧ next_fd w' = next_fd w
  ∧ rand_pos w' = rand_pos w ∧ cfg w' = cfg w ∧ conf w' = conf w.

Lemma same_store_refl w : same_store w w.
Proof. by repeat split. Qed.

Lemma same_store_trans w1 w2 w3 :
  same_store w1 w2 → same_store w2 w3 → same_store w1 w3.
Proof. unfold same_store. intros; destruct_and!; repeat split; congruence. Qed.

Lemma same_store_touch w : same_store w (touch_logger w).
Proof. unfold touch_logger. destruct (util_GloablLogger w); by repeat split. Qed.

Lemma bind_entry_spec kv bp w :
  ∃ w', bind_entry env kv bp w = Returned (entry_table kv bp) w'
    ∧ trace w' = trace w ++ entry_events kv
    ∧ util_OS w' = util_OS w
    ∧ rclone_ConfigPath w' = rclone_ConfigPath w
    ∧ same_store w w'.
Proof.
  unfold bind_entry, entry_table, entry_events, same_store.
  destruct (strings.SplitN kv ":" 2) as [|b0 [|b1 [|b2 l]]];
    [run_logged w | run_logged w | | run_logged w].
  destruct (filepath.Abs (Getwd env) b0) as [target|]; run_logged w.
Qed.

Lemma entry_table_colon kv bp : is_Some (entry_table kv bp) ↔ has_colon kv.
Proof.
  unfold entry_table. split.
  - destruct (strings.SplitN kv ":" 2) as [|b0 [|b1 [|b2 l]]] eqn:E;
      intros [? ?]; try discriminate.
    by eapply SplitN_colon_two.
  - intros H. destruct (SplitN_colon_has kv H) as (loc & remote & -> & _). by eexists.
Qed.

Lemma bind_loop_spec binds : ∀ bp w,
  ∃ w', bind_loop env binds bp w = Returned (loop_table binds bp) w'
    ∧ trace w' = trace w ++ loop_events binds
    ∧ util_OS w' = util_OS w
    ∧ rclone_ConfigPath w' = rclone_ConfigPath w
    ∧ same_store w w'.
Proof.
  induction binds as [|kv rest IH]; intros bp w.
  - exists w. cbn. rewrite app_nil_r. repeat split; reflexivity.
  - destruct (bind_entry_spec kv bp w) as (w1 & Hrun & Htr & Hos & Hcp & Hst).
    cbn [bind_loop loop_table loop_events]. unfold bind at 1. rewrite Hrun.
    destruct (entry_table kv bp) as [bp'|] eqn:Het.
    + assert (has_colon kv) as Hc by (apply (entry_table_colon kv bp); rewrite Het; by eexists).
      destruct (IH bp' w1) as (w2 & Hrun2 & Htr2 & Hos2 & Hcp2 & Hst2).
      exists w2. rewrite decide_True by done.
      split; [exact Hrun2|].
      split; [by rewrite Htr2, Htr, app_assoc|].
      split; [congruence|]. split; [congruence|].
      by eapply same_store_trans.
    + assert (¬ has_colon kv) as Hc.
      { intros Hc. apply (entry_table_colon kv bp) in Hc. rewrite Het in Hc. by destruct Hc. }
      exists w1. rewrite decide_False by done. rewrite app_nil_r.
      split; [reflexivity|]. by repeat (split; [assumption|]).
Qed.

(** An entry without a colon stops the loop, wherever it stands. *)
Lemma loop_table_malformed binds bp :
  (∃ kv, In kv binds ∧ ¬ has_colon kv) → loop_table binds bp = None.
Proof.
  revert bp. induction binds as [|kv rest IH]; intros bp (kv' & Hin & Hnc).
  - destruct Hin.
  - cbn. destruct (entry_table kv bp) as [bp'|] eqn:Het; [|done].
    destruct Hin as [->|Hin].
    + exfalso. apply Hnc. apply (entry_table_colon kv' bp). rewrite Het. by eexists.
    + apply IH. eauto.
Qed.

Lemma loop_events_malformed binds :
  (∃ kv, In kv binds ∧ ¬ has_colon kv) →
  ∃ kv evs, In kv binds ∧ ¬ has_colon kv
    ∧ loop_events binds = evs ++ [EvLog SevWarning (MsgBadBind kv)].
Proof.
  induction binds as [|kv rest IH]; intros (kv' & Hin & Hnc).
  - destruct Hin.
  - cbn [loop_events]. destruct (decide (has_colon kv)) as [Hc|Hc].
    + destruct Hin as [->|Hin]; [done|].
      destruct IH as (kv0 & evs & Hin0 & Hnc0 & Hev); [eauto|].
      exists kv0, (entry_events kv ++ evs). rewrite Hev, app_assoc.
      repeat split; [by right | done].
    + exists kv, []. unfold entry_events. rewrite (SplitN_colon_none kv Hc).
      rewrite app_nil_r. repeat split; [by left | done].
Qed.

(** Entries that all have a colon never stop the loop. *)
Lemma loop_table_wellformed binds : ∀ bp,
  Forall has_colon binds →
  loop_table binds bp
  = Some (foldl (λ t kv, default t (entry_table kv t)) bp binds).
Proof.
  induction binds as [|kv rest IH]; intros bp Hall; [done|].
  inversion Hall as [|? ? Hkv Hrest]; subst.
  cbn. apply (entry_table_colon kv bp) in Hkv as [bp' Hbp'].
  rewrite Hbp'. cbn. by apply IH.
Qed.

End BindLoop.

(** ** [initRCloneBind], path by path *)

Definition binds_of (w : World) : list string := rclone_Binds (RCloneConfig (conf w)).
Definition config_of (w : World) : string := rclone_Config (RCloneConfig (conf w)).

Section RCloneBindPaths.

Context (env : Env).

Lemma initRCloneBind_other_os w :
  GOOS env ≠ "linux" →
  initRCloneBind env w
  = Returned tt (emit (EvLog SevWarning (MsgUnsupportedOS (GOOS env))) (touch_logger w)).
Proof.
  intros Hos. unfold initRCloneBind.
  destruct (String.eqb_spec (GOOS env) "linux"); [done|]. reflexivity.
Qed.

Lemma initRCloneBind_empty w :
  GOOS env = "linux" → binds_of w = [] →
  initRCloneBind env w = Panic (PanicIndexOutOfRange 0 0) w.
Proof.
  unfold binds_of, initRCloneBind. intros -> Hb. cbn. unfold bind, gets. by rewrite Hb.
Qed.

Lemma initRCloneBind_unset w rest :
  GOOS env = "linux" → binds_of w = "UNSET" :: rest →
  initRCloneBind env w = Returned tt w.
Proof.
  unfold binds_of, initRCloneBind. intros -> Hb. cbn. unfold bind, gets. by rewrite Hb.
Qed.

Lemma initRCloneBind_no_config w first rest :
  GOOS env = "linux" → binds_of w = first :: rest → first ≠ "UNSET" →
  nodes w !! config_of w = None →
  initRCloneBind env w
  = Returned tt (emit (EvLog SevWarning (MsgRCloneConfigNotFound (config_of w)))
                      (touch_logger w)).
Proof.
  unfold binds_of, config_of, initRCloneBind. intros -> Hb Hf Hc.
  cbn. unfold bind, gets, util_Exists. rewrite Hb.
  destruct (String.eqb_spec first "UNSET"); [done|].
  unfold gets. rewrite Hc. rewrite bool_decide_false by (by intros [? ?]). reflexivity.
Qed.

Lemma initRCloneBind_run w first rest :
  GOOS env = "linux" → binds_of w = first :: rest → first ≠ "UNSET" →
  is_Some (nodes w !! config_of w) →
  ∃ w', initRCloneBind env w = Returned tt w'
    ∧ trace w' = trace w ++ EvSetConfigPath (config_of w) :: loop_events env (binds_of w)
    ∧ rclone_ConfigPath w' = Some (config_of w)
    ∧ util_OS w' = match loop_table env (binds_of w) {[ "/" := OsFs ]} with
                   | Some bindPoints => BindPathFs bindPoints
                   | None => util_OS w
                   end
    ∧ same_store w w'.
Proof.
  unfold binds_of, config_of, initRCloneBind. intros -> Hb Hf Hc.
  cbn. rewrite Hb.
  destruct (String.eqb_spec first "UNSET"); [done|].
  set (config := rclone_Config (RCloneConfig (conf w))) in *.
  set (w0 := set_ConfigPath (Some config) (emit (EvSetConfigPath config) w)).
  destruct (bind_loop_spec env (first :: rest) {[ "/" := OsFs ]} w0)
    as (w1 & Hrun & Htr & Hos & Hcp & Hst).
  unfold bind at 1. unfold util_Exists, gets. rewrite bool_decide_true by done.
  unfold bind at 1. unfold rclonefs_SetConfigPath.
  change ((modify (emit (EvSetConfigPath config));;;
           modify (set_ConfigPath (Some config))) w) with (Returned tt w0).
  cbn beta iota. unfold bind. rewrite Hrun.
  destruct (loop_table env (first :: rest) {[ "/" := OsFs ]}) as [bp|].
  - eexists. split; [reflexivity|]. cbn. rewrite Htr, Hcp. cbn. rewrite <- app_assoc.
    repeat split; try reflexivity; apply Hst.
  - exists w1. split; [reflexivity|]. rewrite Htr, Hcp, Hos. cbn. rewrite <- app_assoc.
    repeat split; try reflexivity; apply Hst.
Qed.

(** The step never changes the file system, the open handles or the
    configuration records, however it ends. *)
Lemma initRCloneBind_same_store w :
  same_store w (final_world (initRCloneBind env w)).
Proof.
  destruct (decide (GOOS env = "linux")) as [Hos|Hos].
  - destruct (binds_of w) as [|first rest] eqn:Hb.
    + rewrite initRCloneBind_empty by done. apply same_store_refl.
    + destruct (decide (first = "UNSET")) as [->|Hf].
      * erewrite initRCloneBind_unset by done. apply same_store_refl.
      * destruct (nodes w !! config_of w) as [nd|] eqn:Hc.
        -- destruct (initRCloneBind_run w first rest) as (w' & -> & _ & _ & _ & Hst);
             try done.
        -- erewrite initRCloneBind_no_config by done. cbn [final_world].
           pose proof (same_store_touch w) as Ht. unfold same_store in *. cbn. exact Ht.
  - rewrite initRCloneBind_other_os by done. cbn [final_world].
    pose proof (same_store_touch w) as Ht. unfold same_store in *. cbn. exact Ht.
Qed.

End RCloneBindPaths.

(** ** Bind entries written as [local:remote] *)

(** The bind entry for a local path and a remote target. *)
Definition bind_string (p : string * string) : string := p.1 +:+ ":" +:+ p.2.

(** The table with the entry for one bind added: the absolute form of the
    local path is mapped to the remote handle; nothing is added when the
    path has no absolute form. *)
Definition add_bind (getwd : option string) (t : gmap string Fs) (p : string * string)
  : gmap string Fs :=
  match filepath.Abs getwd p.1 with
  | Some target => <[target := RCloneFs p.2]> t
  | None => t
  end.

Lemma Index_colon_join remote : ∀ loc,
  ¬ has_colon loc → strings.Index (loc +:+ ":" +:+ remote) ":" = Some (String.length loc).
Proof.
  induction loc as [|c loc IH]; intros Hn.
  - change ("" +:+ ":" +:+ remote) with (String ":" remote).
    cbn [strings.Index]. by rewrite HasPrefix_colon.
  - change (String c loc +:+ ":" +:+ remote) with (String c (loc +:+ ":" +:+ remote)).
    cbn [strings.Index]. rewrite HasPrefix_colon.
    unfold has_colon in *. cbn [strings.Index] in Hn. rewrite HasPrefix_colon in Hn.
    destruct (Ascii.eqb_spec c ":").
    + exfalso. apply Hn. by eexists.
    + rewrite IH; [done|]. intros [m Hm]. apply Hn. rewrite Hm. by eexists.
Qed.

Lemma take_join loc rest : strings.take (String.length loc) (loc +:+ rest) = loc.
Proof.
  induction loc as [|c loc IH]; [by destruct rest|]. exact (f_equal (String c) IH).
Qed.

Lemma drop_join loc rest :
  strings.drop (String.length loc + 1) (loc +:+ ":" +:+ rest) = rest.
Proof. induction loc as [|c loc IH]; [done|]. exact IH. Qed.

(** The entry [loc:remote] is split at its first colon, whatever colons
    [remote] has. *)
Lemma SplitN_bind_string loc remote :
  ¬ has_colon loc → strings.SplitN (bind_string (loc, remote)) ":" 2 = [loc; remote].
Proof.
  intros Hn. unfold bind_string. cbn [fst snd].
  rewrite SplitN_2_Index, (Index_colon_join remote loc Hn).
  by rewrite take_join, drop_join.
Qed.

Lemma has_colon_bind_string p : has_colon (bind_string p).
Proof.
  destruct p as [loc remote]. unfold bind_string, has_colon. cbn [fst snd].
  induction loc as [|c loc IH].
  - change ("" +:+ ":" +:+ remote) with (String ":" remote).
    cbn [strings.Index]. rewrite HasPrefix_colon. by eexists.
  - change (String c loc +:+ ":" +:+ remote) with (String c (loc +:+ ":" +:+ remote)).
    cbn [strings.Index]. destruct (strings.HasPrefix _ _); [by eexists|].
    destruct IH as [m ->]. by eexists.
Qed.

Lemma loop_table_entries env entries : ∀ bp,
  Forall (λ p, ¬ has_colon p.1) entries →
  loop_table env (bind_string <$> entries) bp
  = Some (foldl (add_bind (Getwd env)) bp entries).
Proof.
  induction entries as [|[loc remote] rest IH]; intros bp Hall; [done|].
  inversion Hall as [|? ? Hloc Hrest]; subst. cbn [fst] in Hloc.
  cbn [fmap list_fmap loop_table foldl]. unfold entry_table.
  rewrite (SplitN_bind_string loc remote Hloc).
  by rewrite (IH _ Hrest).
Qed.

Lemma Forall_has_colon_bind_strings entries : Forall has_colon (bind_string <$> entries).
Proof. apply Forall_fmap, Forall_forall. intros p _. apply has_colon_bind_string. Qed.

(** ** Properties of the remote-bind step *)

(** C9.  On Linux [initRCloneBind] reads [RCloneConfig.Binds[0]] before
    anything else: with an empty bind list the step ends in the run-time
    panic "index out of range [0] with length 0", with nothing logged and
    nothing changed; with a non-empty list it returns. *)
Theorem initRCloneBind_requires_nonempty_binds env w :
  GOOS env = "linux" →
  (binds_of w = [] →
     initRCloneBind env w = Panic (PanicIndexOutOfRange 0 0) w
     ∧ new_events w (final_world (initRCloneBind env w)) = [])
  ∧ (binds_of w ≠ [] → ∃ w', initRCloneBind env w = Returned tt w').
Proof.
  intros Hos. split.
  - intros Hb. rewrite (initRCloneBind_empty env w Hos Hb). split; [done|].
    apply new_events_refl.
  - intros Hb. destruct (binds_of w) as [|first rest] eqn:E; [done|].
    destruct (decide (first = "UNSET")) as [->|Hf].
    + rewrite (initRCloneBind_unset env w rest Hos E). by eexists.
    + destruct (nodes w !! config_of w) as [nd|] eqn:Hc.
      * destruct (initRCloneBind_run env w first rest) as (w' & -> & _); try done.
        by eexists.
      * rewrite (initRCloneBind_no_config env w first rest); try done. by eexists.
Qed.

Lemma initRCloneBind_requires_nonempty_binds_witness :
  initRCloneBind Sample.env (Sample.world [] None)
  = Panic (PanicIndexOutOfRange 0 0) (Sample.world [] None)
  ∧ ∃ w', initRCloneBind Sample.env (Sample.world ["UNSET"] None) = Returned tt w'.
Proof.
  split.
  - apply (initRCloneBind_requires_nonempty_binds Sample.env (Sample.world [] None));
      reflexivity.
  - apply (initRCloneBind_requires_nonempty_binds Sample.env (Sample.world ["UNSET"] None));
      [reflexivity | discriminate].
Defined.

(** C4.  When the first entry of the bind list is ["UNSET"] the step is
    skipped: it returns, no configuration path is given to the remote
    driver, [util.OS] keeps its value, and on Linux nothing at all
    changes. *)
Theorem unset_sentinel_skips_bind_step env w rest :
  binds_of w = "UNSET" :: rest →
  ∃ w', initRCloneBind env w = Returned tt w'
    ∧ rclone_ConfigPath w' = rclone_ConfigPath w
    ∧ util_OS w' = util_OS w
    ∧ (∀ e, In e (new_events w w') →
         ∀ s, e ≠ EvSetConfigPath s ∧ e ≠ EvNewRCloneFs s)
    ∧ (GOOS env = "linux" → w' = w).
Proof.
  intros Hb. destruct (decide (GOOS env = "linux")) as [Hos|Hos].
  - exists w. rewrite (initRCloneBind_unset env w rest Hos Hb), new_events_refl.
    split; [done|]. split; [done|]. split; [done|]. split; [by intros e []|done].
  - rewrite (initRCloneBind_other_os env w Hos). eexists. split; [reflexivity|].
    destruct (touch_logger_frame w) as (_ & _ & _ & Ho & Hc & Ht & _).
    rewrite (new_events_app w _ [EvLog SevWarning (MsgUnsupportedOS (GOOS env))])
      by (cbn; by rewrite Ht).
    cbn. rewrite Ho, Hc. split; [done|]. split; [done|]. split; [|done].
    intros e [<-|[]] s. by split.
Qed.

Lemma unset_sentinel_skips_bind_step_witness :
  ∃ w', initRCloneBind Sample.env (Sample.world ["UNSET"] None) = Returned tt w'
    ∧ rclone_ConfigPath w' = None
    ∧ util_OS w' = OsFs
    ∧ w' = Sample.world ["UNSET"] None.
Proof.
  destruct (unset_sentinel_skips_bind_step Sample.env (Sample.world ["UNSET"] None) [] eq_refl)
    as (w' & Hrun & Hcp & Hos & _ & Hsame).
  exists w'. repeat split; [exact Hrun | exact Hcp | exact Hos | exact (Hsame eq_refl)].
Defined.

(** Whatever way the step goes, an entry without a colon means that no
    table is installed; shared by the statements below. *)
Lemma malformed_entry_keeps_OS env w :
  (∃ kv, In kv (binds_of w) ∧ ¬ has_colon kv) →
  ∃ w', initRCloneBind env w = Returned tt w' ∧ util_OS w' = util_OS w.
Proof.
  intros Hbad.
  destruct (touch_logger_frame w) as (_ & _ & _ & Ho & _).
  destruct (decide (GOOS env = "linux")) as [Hos|Hos];
    [|rewrite (initRCloneBind_other_os env w Hos); by eexists].
  destruct (binds_of w) as [|first rest] eqn:Hb; [by destruct Hbad as (? & [] & _)|].
  destruct (decide (first = "UNSET")) as [->|Hf];
    [rewrite (initRCloneBind_unset env w rest Hos Hb); by eexists|].
  destruct (nodes w !! config_of w) as [nd|] eqn:Hcfg;
    [|rewrite (initRCloneBind_no_config env w first rest); try done; by eexists].
  destruct (initRCloneBind_run env w first rest) as (w' & Hrun & _ & _ & Hos' & _);
    try done.
  exists w'. split; [exact Hrun|]. rewrite Hb in *.
  by rewrite (loop_table_malformed env _ _ Hbad) in Hos'.
Qed.

(** C2, as the code has it.  For every bind list with an entry that has no
    colon, the step returns without installing a table: [util.OS] keeps
    its value.  A warning is logged, except when the step is skipped
    because the first entry is ["UNSET"] on Linux: then nothing is logged
    and nothing changes. *)
Theorem malformed_bind_installs_no_table env w :
  (∃ kv, In kv (binds_of w) ∧ ¬ has_colon kv) →
  ∃ w', initRCloneBind env w = Returned tt w' ∧ util_OS w' = util_OS w
    ∧ (¬ (GOOS env = "linux" ∧ head (binds_of w) = Some "UNSET") →
       warns (new_events w w'))
    ∧ (GOOS env = "linux" → head (binds_of w) = Some "UNSET" → w' = w).
Proof.
  intros Hbad.
  destruct (touch_logger_frame w) as (_ & _ & _ & Ho & Hc & Ht & _).
  destruct (decide (GOOS env = "linux")) as [Hos|Hos].
  - destruct (binds_of w) as [|first rest] eqn:Hb.
    { destruct Hbad as (? & [] & _). }
    destruct (decide (first = "UNSET")) as [->|Hf].
    + rewrite (initRCloneBind_unset env w rest Hos Hb). exists w.
      repeat split; try done. intros Hn. exfalso. by apply Hn.
    + destruct (nodes w !! config_of w) as [nd|] eqn:Hcfg.
      * destruct (initRCloneBind_run env w first rest) as (w' & Hrun & Htr & _ & Hos' & _);
          try done.
        exists w'. split; [exact Hrun|]. rewrite Hb in *.
        rewrite (loop_table_malformed env _ _ Hbad) in Hos'.
        split; [exact Hos'|]. split.
        -- intros _. destruct (loop_events_malformed env _ Hbad) as (kv & evs & _ & _ & Hev).
           rewrite (new_events_app w w' _ Htr), Hev.
           exists (MsgBadBind kv). right. apply in_or_app. right. by left.
        -- intros _ [= ->]. done.
      * rewrite (initRCloneBind_no_config env w first rest); try done.
        eexists. split; [reflexivity|]. cbn. split; [exact Ho|]. split.
        -- intros _. erewrite new_events_app by (cbn; by rewrite Ht).
           eexists. by left.
        -- intros _ [= ->]. done.
  - rewrite (initRCloneBind_other_os env w Hos). eexists. split; [reflexivity|].
    cbn. split; [exact Ho|]. split; [|done].
    intros _. erewrite new_events_app by (cbn; by rewrite Ht).
    eexists. by left.
Qed.

Lemma malformed_bind_installs_no_table_witness :
  ∃ w', initRCloneBind Sample.env
          (Sample.world ["/data:remote:mybucket"; "bad-entry-no-colon"] None)
        = Returned tt w'
    ∧ util_OS w' = OsFs
    ∧ warns (new_events
               (Sample.world ["/data:remote:mybucket"; "bad-entry-no-colon"] None) w').
Proof.
  destruct (malformed_bind_installs_no_table Sample.env
              (Sample.world ["/data:remote:mybucket"; "bad-entry-no-colon"] None))
    as (w' & Hrun & Hos & Hwarn & _).
  - exists "bad-entry-no-colon". split; [right; by left|]. by intros [? [=]].
  - exists w'. repeat split; [exact Hrun | exact Hos |].
    apply Hwarn. intros [_ [=]].
Defined.

(** C2 as the specification words it: every bind list with a colon-less
    entry makes the step abort with a warning. *)
Definition aborts_with_warning_always : Prop :=
  ∀ env w,
    (∃ kv, In kv (binds_of w) ∧ ¬ has_colon kv) →
    ∃ w', initRCloneBind env w = Returned tt w' ∧ util_OS w' = util_OS w
      ∧ warns (new_events w w').

(** The bind list [["UNSET"]] has a colon-less entry, yet on Linux the
    step returns with the world as it was: no event, so no warning. *)
Lemma unset_entry_aborts_without_warning :
  (In "UNSET" (binds_of (Sample.world ["UNSET"] None)) ∧ ¬ has_colon "UNSET")
  ∧ initRCloneBind Sample.env (Sample.world ["UNSET"] None)
    = Returned tt (Sample.world ["UNSET"] None)
  ∧ new_events (Sample.world ["UNSET"] None) (Sample.world ["UNSET"] None) = []
  ∧ ¬ aborts_with_warning_always.
Proof.
  split; [split; [by left | exact UNSET_no_colon]|].
  split; [reflexivity|]. split; [reflexivity|].
  intros Hall.
  destruct (Hall Sample.env (Sample.world ["UNSET"] None)) as (w' & Hrun & _ & msg & Hin).
  - exists "UNSET". split; [by left | exact UNSET_no_colon].
  - injection Hrun as <-. exact Hin.
Qed.

(** C10.  On Linux, with a first entry other than ["UNSET"] and the
    RClone configuration file present, a bind list with a colon-less entry
    makes the step return with the configuration path registered with the
    remote driver and no table installed.  The registration is the first
    event of the step; every event of a bind entry, up to the warning for
    the colon-less entry that ends the step, comes after it. *)
Theorem config_path_registered_before_abort env w first rest :
  GOOS env = "linux" → binds_of w = first :: rest → first ≠ "UNSET" →
  is_Some (nodes w !! config_of w) →
  (∃ kv, In kv (binds_of w) ∧ ¬ has_colon kv) →
  ∃ w' evs kv,
    initRCloneBind env w = Returned tt w'
    ∧ rclone_ConfigPath w' = Some (config_of w)
    ∧ util_OS w' = util_OS w
    ∧ In kv (binds_of w) ∧ ¬ has_colon kv
    ∧ new_events w w'
      = EvSetConfigPath (config_of w) :: evs ++ [EvLog SevWarning (MsgBadBind kv)]
    ∧ (∀ e s, In e evs → e ≠ EvSetConfigPath s).
Proof.
  intros Hos Hb Hf Hcfg Hbad.
  destruct (initRCloneBind_run env w first rest Hos Hb Hf Hcfg)
    as (w' & Hrun & Htr & Hcp & Hos' & _).
  rewrite (loop_table_malformed env _ _ Hbad) in Hos'.
  destruct (loop_events_malformed env _ Hbad) as (kv & evs & Hin & Hnc & Hev).
  exists w', evs, kv. repeat split; try done.
  - by rewrite (new_events_app w w' _ Htr), Hev.
  - intros e s He ->.
    assert (In (EvSetConfigPath s) (loop_events env (binds_of w))) as Hl
      by (rewrite Hev; apply in_or_app; by left).
    clear -Hl. induction (binds_of w) as [|kv rest IH]; [done|].
    cbn [loop_events] in Hl. apply in_app_or in Hl as [Hl|Hl].
    + unfold entry_events in Hl.
      destruct (strings.SplitN kv ":" 2) as [|b0 [|b1 [|b2 l]]];
        try (destruct Hl as [[=]|[]]).
      destruct Hl as [[=]|Hl]. destruct (filepath.Abs _ _); by destruct Hl as [[=]|[]].
    + destruct (decide (has_colon kv)); [by apply IH | done].
Qed.

Lemma config_path_registered_before_abort_witness :
  ∃ w', initRCloneBind Sample.env
          (Sample.world ["/data:remote:mybucket"; "bad-entry-no-colon"] None)
        = Returned tt w'
    ∧ rclone_ConfigPath w' = Some "/etc/rclone.conf"
    ∧ util_OS w' = OsFs.
Proof.
  destruct (config_path_registered_before_abort Sample.env
              (Sample.world ["/data:remote:mybucket"; "bad-entry-no-colon"] None)
              "/data:remote:mybucket" ["bad-entry-no-colon"])
    as (w' & evs & kv & Hrun & Hcp & Hos & _).
  - reflexivity.
  - reflexivity.
  - discriminate.
  - exists (File "[remote]"). vm_compute. reflexivity.
  - exists "bad-entry-no-colon". split; [right; by left|]. by intros [? [=]].
  - exists w'. repeat split; [exact Hrun | exact Hcp | exact Hos].
Defined.

Lemma has_colon_decompose binds :
  Forall has_colon binds →
  ∃ entries, binds = bind_string <$> entries ∧ Forall (λ p, ¬ has_colon p.1) entries.
Proof.
  induction 1 as [|kv rest Hkv _ (entries & -> & Hall)].
  - by exists [].
  - destruct (SplitN_colon_has kv Hkv) as (loc & remote & _ & -> & Hloc).
    exists ((loc, remote) :: entries). split; [done|]. by constructor.
Qed.

Lemma loop_events_app env a b :
  Forall has_colon a → loop_events env (a ++ b) = loop_events env a ++ loop_events env b.
Proof.
  induction 1 as [|kv rest Hkv _ IH]; [done|].
  cbn [app loop_events]. rewrite !decide_True by done. by rewrite IH, app_assoc.
Qed.

Lemma bind_string_not_UNSET p : bind_string p ≠ "UNSET".
Proof. intros E. apply UNSET_no_colon. rewrite <- E. apply has_colon_bind_string. Qed.

(** C3.  On Linux with the RClone configuration file present: a bind list
    whose entries all contain a colon is a list of entries [loc:remote]
    with a colon-free [loc]; for every such list the step installs the
    table that has the local file system at the root and, entry by entry,
    the absolute form of [loc] mapped to the remote handle for [remote],
    which may itself contain colons.  For the list
    [["/data:remote:mybucket"]] the installed table has exactly two
    entries, the root with the local file system and [/data] with the remote
    handle for [remote:mybucket]. *)
Theorem wellformed_binds_install_table env w :
  GOOS env = "linux" → is_Some (nodes w !! config_of w) →
  (Forall has_colon (binds_of w) →
     ∃ entries, binds_of w = bind_string <$> entries
       ∧ Forall (λ p, ¬ has_colon p.1) entries)
  ∧ (∀ entries,
       entries ≠ [] → Forall (λ p, ¬ has_colon p.1) entries →
       binds_of w = bind_string <$> entries →
       ∃ w', initRCloneBind env w = Returned tt w'
         ∧ util_OS w'
           = BindPathFs (foldl (add_bind (Getwd env)) {[ "/" := OsFs ]} entries))
  ∧ (binds_of w = ["/data:remote:mybucket"] →
       ∃ w' bindPoints,
         initRCloneBind env w = Returned tt w'
         ∧ util_OS w' = BindPathFs bindPoints
         ∧ bindPoints = <[ "/data" := RCloneFs "remote:mybucket" ]> {[ "/" := OsFs ]}
         ∧ bindPoints !! "/" = Some OsFs
         ∧ bindPoints !! "/data" = Some (RCloneFs "remote:mybucket")
         ∧ size bindPoints = 2%nat).
Proof.
  intros Hos Hcfg.
  assert (∀ entries,
            entries ≠ [] → Forall (λ p, ¬ has_colon p.1) entries →
            binds_of w = bind_string <$> entries →
            ∃ w', initRCloneBind env w = Returned tt w'
              ∧ util_OS w'
                = BindPathFs (foldl (add_bind (Getwd env)) {[ "/" := OsFs ]} entries))
    as Hgen.
  { intros entries Hne Hall Hb. destruct entries as [|p rest]; [done|].
    destruct (initRCloneBind_run env w (bind_string p) (bind_string <$> rest))
      as (w' & Hrun & _ & _ & Hos' & _); try done.
    { apply bind_string_not_UNSET. }
    exists w'. split; [exact Hrun|].
    by rewrite Hos', Hb, (loop_table_entries env (p :: rest) _ Hall). }
  split; [apply has_colon_decompose|]. split; [exact Hgen|].
  intros Hb.
  destruct (Hgen [("/data", "remote:mybucket")]) as (w' & Hrun & Hos').
  - discriminate.
  - constructor; [|constructor]. by intros [? [=]].
  - exact Hb.
  - exists w', (<[ "/data" := RCloneFs "remote:mybucket" ]> {[ "/" := OsFs ]}).
    split; [exact Hrun|]. split; [exact Hos'|]. split; [reflexivity|].
    split; [by rewrite lookup_insert_ne, lookup_singleton_eq|].
    split; [by rewrite lookup_insert_eq|].
    rewrite map_size_insert_None by (by rewrite lookup_singleton_ne).
    by rewrite map_size_singleton.
Qed.

Lemma wellformed_binds_install_table_witness :
  ∃ w', initRCloneBind Sample.env (Sample.world ["/data:remote:mybucket"] None)
        = Returned tt w'
    ∧ util_OS w'
      = BindPathFs (<[ "/data" := RCloneFs "remote:mybucket" ]> {[ "/" := OsFs ]}).
Proof.
  destruct (wellformed_binds_install_table Sample.env
              (Sample.world ["/data:remote:mybucket"] None)) as (_ & _ & Hone).
  - reflexivity.
  - exists (File "[remote]"). vm_compute. reflexivity.
  - destruct (Hone eq_refl) as (w' & bp & Hrun & Hos & -> & _).
    exists w'. split; [exact Hrun | exact Hos].
Defined.

(** C5.  On Linux with the RClone configuration file present, in a bind
    list of entries [loc:remote]: an entry whose local part has no
    absolute form is logged with a warning and adds nothing; the entries
    before and after it are processed as they would be without it, and the
    table is installed.  With a colon-less entry in its place no table is
    installed. *)
Theorem unresolvable_local_path_skipped env w pre loc remote post :
  GOOS env = "linux" → is_Some (nodes w !! config_of w) →
  binds_of w = (bind_string <$> pre) ++ bind_string (loc, remote) :: (bind_string <$> post) →
  Forall (λ p, ¬ has_colon p.1) pre → Forall (λ p, ¬ has_colon p.1) post →
  ¬ has_colon loc →
  filepath.Abs (Getwd env) loc = None →
  (∃ w', initRCloneBind env w = Returned tt w'
     ∧ util_OS w'
       = BindPathFs (foldl (add_bind (Getwd env)) {[ "/" := OsFs ]} (pre ++ post))
     ∧ new_events w w'
       = EvSetConfigPath (config_of w)
         :: loop_events env (bind_string <$> pre)
         ++ [EvLog SevInfo (MsgRCloneBind remote loc); EvLog SevWarning (MsgAbsFailed loc)]
         ++ loop_events env (bind_string <$> post))
  ∧ (∀ w2 bad,
       binds_of w2 = (bind_string <$> pre) ++ bad :: (bind_string <$> post) →
       ¬ has_colon bad →
       ∃ w2', initRCloneBind env w2 = Returned tt w2' ∧ util_OS w2' = util_OS w2).
Proof.
  intros Hos Hcfg Hb Hpre Hpost Hloc Habs. split.
  - assert (binds_of w = bind_string <$> (pre ++ (loc, remote) :: post)) as Hb'
      by (by rewrite Hb, fmap_app).
    assert (Forall (λ p, ¬ has_colon p.1) (pre ++ (loc, remote) :: post)) as Hall
      by (apply Forall_app; split; [done | by constructor]).
    destruct (binds_of w) as [|first rest] eqn:Hbw.
    { by apply app_cons_not_nil in Hb. }
    destruct (initRCloneBind_run env w first rest) as (w' & Hrun & Htr & _ & Hos' & _);
      try done.
    { assert (In first (bind_string <$> (pre ++ (loc, remote) :: post))) as Hin
        by (rewrite <- Hb'; by left).
      apply in_map_iff in Hin as (p & <- & _). apply bind_string_not_UNSET. }
    exists w'. split; [exact Hrun|]. rewrite Hbw in *. split.
    + rewrite Hos', Hb', (loop_table_entries env _ _ Hall).
      f_equal. rewrite !foldl_app. cbn [foldl]. f_equal.
      unfold add_bind. cbn [fst]. by rewrite Habs.
    + rewrite (new_events_app w w' _ Htr). f_equal. rewrite Hb.
      rewrite loop_events_app by apply Forall_has_colon_bind_strings.
      f_equal. cbn [loop_events].
      rewrite decide_True by apply (has_colon_bind_string (loc, remote)).
      unfold entry_events. rewrite (SplitN_bind_string loc remote Hloc), Habs. reflexivity.
  - intros w2 bad Hb2 Hbad.
    destruct (malformed_entry_keeps_OS env w2) as (w2' & Hrun & Hos2).
    + exists bad. split; [|done]. rewrite Hb2. apply in_or_app. right. by left.
    + by exists w2'.
Qed.

Lemma unresolvable_local_path_skipped_witness :
  ∃ w', initRCloneBind Sample.env_no_wd
          (Sample.world ["/data:remote:a"; "rel:remote:b"; "/mnt:remote:c"] None)
        = Returned tt w'
    ∧ util_OS w'
      = BindPathFs (<[ "/mnt" := RCloneFs "remote:c" ]>
                      (<[ "/data" := RCloneFs "remote:a" ]> {[ "/" := OsFs ]}))
    ∧ In (EvLog SevWarning (MsgAbsFailed "rel"))
         (new_events (Sample.world ["/data:remote:a"; "rel:remote:b"; "/mnt:remote:c"] None)
                     w').
Proof.
  destruct (unresolvable_local_path_skipped Sample.env_no_wd
              (Sample.world ["/data:remote:a"; "rel:remote:b"; "/mnt:remote:c"] None)
              [("/data", "remote:a")] "rel" "remote:b" [("/mnt", "remote:c")])
    as ((w' & Hrun & Hos & Hev) & _).
  - reflexivity.
  - exists (File "[remote]"). vm_compute. reflexivity.
  - reflexivity.
  - constructor; [|constructor]. by intros [? [=]].
  - constructor; [|constructor]. by intros [? [=]].
  - by intros [? [=]].
  - reflexivity.
  - exists w'. split; [exact Hrun|]. split; [exact Hos|].
    rewrite Hev. right. apply in_or_app. right. right. by left.
Defined.

(** ** Validation of the records *)

(** The record of section [id] passes validation. *)
Definition valid_conf (id : SectionId) (g : Configs) : Prop :=
  validator.Struct (fields_of id (get_conf id g)) = Errors [].

Lemma get_set_conf_eq id v g : get_conf id (set_conf id v g) = v.
Proof. by destruct id. Qed.

Lemma get_set_conf_ne id id' v g :
  id ≠ id' → get_conf id' (set_conf id v g) = get_conf id' g.
Proof. by destruct id, id'. Qed.

(** A tag that is a numeric range: one lower bound [gte] followed by one
    upper bound [lte]; the result is the pair of bounds. *)
Definition range_constraint (tag : string) : option (Z * Z) :=
  match parseFieldTags tag with
  | [TagBlock _ [(lower, lo)]; TagBlock _ [(upper, hi)]] =>
      if decide (lower = "gte" ∧ upper = "lte") then
        l ← strconv.ParseInt lo; h ← strconv.ParseInt hi; Some (l, h)
      else None
  | _ => None
  end.

Lemma bakedIn_gte : bakedInValidators "gte" = Some (compare_with Z.geb).
Proof. reflexivity. Qed.

Lemma bakedIn_lte : bakedInValidators "lte" = Some (compare_with Z.leb).
Proof. reflexivity. Qed.

(** What the validator answers on an integer field whose tag is the range
    from [lo] to [hi]. *)
Lemma validate_range_field name tag lo hi v :
  range_constraint tag = Some (lo, hi) →
  ∃ tlo thi,
    validate_field (mkField name tag (VInt v))
    = if v >=? lo
      then (if v <=? hi then Errors [] else Errors [(name, thi)])
      else Errors [(name, tlo)].
Proof.
  unfold range_constraint, validate_field. cbn [f_tag f_value f_name].
  destruct (parseFieldTags tag) as [|[|tlo [|[lower plo] [|]]] [|[|thi [|[upper phi] [|]]] [|]]];
    try discriminate.
  destruct (decide (lower = "gte" ∧ upper = "lte")) as [[-> ->]|]; [|discriminate].
  destruct (strconv.ParseInt plo) as [l|] eqn:El; [|discriminate].
  destruct (strconv.ParseInt phi) as [h|] eqn:Eh; [|discriminate].
  intros [= -> ->]. exists tlo, thi.
  cbn -[strconv.ParseInt Z.geb Z.leb bakedInValidators].
  rewrite bakedIn_gte, bakedIn_lte. unfold compare_with.
  cbn -[strconv.ParseInt Z.geb Z.leb]. rewrite El, Eh.
  cbn -[strconv.ParseInt Z.geb Z.leb].
  destruct (v >=? lo); [|done]. cbn -[Z.leb]. by destruct (v <=? hi).
Qed.

Section InitPhases.

Context (env : Env).

Lemma bind_run {A B} (m : M A) (k : A → M B) w :
  bind m k w = match m w with
               | Returned a w' => k a w'
               | Panic p w' => Panic p w'
               end.
Proof. reflexivity. Qed.

Lemma bind_Returned {A B} (m : M A) (k : A → M B) w b w' :
  bind m k w = Returned b w' →
  ∃ a w1, m w = Returned a w1 ∧ k a w1 = Returned b w'.
Proof. unfold bind. destruct (m w) as [a w1|]; [eauto | discriminate]. Qed.

(** [mapSection] only writes the record of its own section; when it
    reports no error that record passed validation. *)
Lemma mapSection_spec id w r w' :
  mapSection env id w = Returned r w' →
  (∀ id', id ≠ id' → get_conf id' (conf w') = get_conf id' (conf w))
  ∧ (r = None → valid_conf id (conf w'))
  ∧ nodes w' = nodes w ∧ handles w' = handles w ∧ rand_pos w' = rand_pos w
  ∧ trace w' = trace w ∧ util_OS w' = util_OS w.
Proof.
  unfold mapSection, bind, gets, valid_conf.
  destruct (cfg w) as [f|]; [|discriminate].
  destruct (ini_MapTo env id _ _) as [v [e|]].
  - intros [= <- <-]. cbn. repeat split; try done.
    intros id' Hne. by apply get_set_conf_ne.
  - cbn. destruct (validator.Struct (fields_of id v)) as [|[|e errs]] eqn:Hv;
      [discriminate| |]; intros [= <- <-]; cbn; repeat split; try done.
    + intros id' Hne. by apply get_set_conf_ne.
    + intros _. by rewrite get_set_conf_eq.
    + intros id' Hne. by apply get_set_conf_ne.
Qed.

Lemma map_sections_spec ids : ∀ w w',
  map_sections env ids w = Returned tt w' →
  (∀ id, In id ids ∨ valid_conf id (conf w) → valid_conf id (conf w'))
  ∧ nodes w' = nodes w ∧ handles w' = handles w ∧ rand_pos w' = rand_pos w
  ∧ trace w' = trace w ∧ util_OS w' = util_OS w.
Proof.
  induction ids as [|id0 rest IH]; intros w w'.
  - intros [= <-]. repeat split; try done. by intros id [[]|H].
  - cbn [map_sections]. intros Hrun.
    apply bind_Returned in Hrun as (r & w1 & Hmap & Hrest).
    destruct r as [e|]; [discriminate|].
    apply mapSection_spec in Hmap as (Hframe & Hvalid & Hn & Hh & Hr & Ht & Ho).
    apply IH in Hrest as (Hall & Hn' & Hh' & Hr' & Ht' & Ho').
    split; [|repeat split; congruence].
    intros id Hid. apply Hall.
    destruct (decide (id0 = id)) as [<-|Hne].
    + right. by apply Hvalid.
    + destruct Hid as [[Heq|Hin]|Hv]; [done | by left |].
      right. unfold valid_conf in *. by rewrite (Hframe id Hne).
Qed.

(** The steps of [Init] after the file is in place leave the file
    system, the handles and the random source alone, however they end. *)
Definition keeps_files {A} (m : M A) : Prop :=
  ∀ w, nodes (final_world (m w)) = nodes w
       ∧ handles (final_world (m w)) = handles w
       ∧ rand_pos (final_world (m w)) = rand_pos w.

Lemma keeps_files_bind {A B} (m : M A) (k : A → M B) :
  keeps_files m → (∀ a, keeps_files (k a)) → keeps_files (bind m k).
Proof.
  intros Hm Hk w. unfold bind. specialize (Hm w).
  destruct (m w) as [a w1|p w1]; cbn [final_world] in *; [|done].
  destruct (Hk a w1) as (? & ? & ?). destruct Hm as (? & ? & ?).
  repeat split; congruence.
Qed.

Lemma keeps_files_Log_Panic {A} msg : keeps_files (Log_Panic (A := A) msg).
Proof.
  intros w. rewrite Log_Panic_eq. cbn.
  destruct (touch_logger_frame w) as (? & ? & _ & _ & _ & _ & ? & _). done.
Qed.

Lemma keeps_files_load path : keeps_files (load env path).
Proof.
  intros w. unfold load, ini_Load, bind, gets, ret, modify.
  destruct (nodes w !! path) as [[|content]|]; cbn;
    try (unfold touch_logger; cbn; by destruct (util_GloablLogger w)).
  destruct (ini_parse env content); cbn; [|done].
  unfold touch_logger; cbn; by destruct (util_GloablLogger w).
Qed.

Lemma keeps_files_mapSection id : keeps_files (mapSection env id).
Proof.
  intros w. destruct (mapSection env id w) as [r w'|p w'] eqn:E.
  - apply mapSection_spec in E. cbn. by destruct_and!.
  - revert E. unfold mapSection, bind, gets, panic.
    destruct (cfg w); [|by intros [= <- <-]].
    destruct (ini_MapTo env id _ _) as [v [e|]]; [discriminate|].
    cbn. destruct (validator.Struct _) as [|[|]]; try discriminate.
    by intros [= <- <-].
Qed.

Lemma keeps_files_map_sections ids : keeps_files (map_sections env ids).
Proof.
  induction ids as [|id rest IH]; [done|].
  cbn [map_sections]. apply keeps_files_bind; [apply keeps_files_mapSection|].
  intros [e|]; [apply keeps_files_Log_Panic | exact IH].
Qed.

Lemma keeps_files_reset_log_level : keeps_files (reset_log_level).
Proof.
  intros w. unfold reset_log_level, bind, gets, modify, util_Log.
  by destruct (system_Debug (SystemConfig (conf w))).
Qed.

Lemma keeps_files_initRCloneBind : keeps_files (initRCloneBind env).
Proof.
  intros w. destruct (initRCloneBind_same_store env w) as (? & ? & _ & ? & _). done.
Qed.

(** [Init] after the file is in place. *)
Definition configure (path : string) : M unit :=
  load env path ;;;
  map_sections env (sections_order env) ;;;
  reset_log_level ;;;
  initRCloneBind env.

Lemma Init_materialize_configure path :
  Init env path = (materialize env path ;;; configure path).
Proof. reflexivity. Qed.

Lemma keeps_files_configure path : keeps_files (configure path).
Proof.
  unfold configure.
  apply keeps_files_bind; [apply keeps_files_load | intros _].
  apply keeps_files_bind; [apply keeps_files_map_sections | intros _].
  apply keeps_files_bind; [apply keeps_files_reset_log_level | intros _].
  apply keeps_files_initRCloneBind.
Qed.

Lemma reset_log_level_Returned w :
  ∃ w', reset_log_level w = Returned tt w' ∧ conf w' = conf w.
Proof.
  unfold reset_log_level, bind, gets, modify, util_Log.
  destruct (system_Debug (SystemConfig (conf w))); cbn; by eexists.
Qed.

(** After a successful [Init] every section listed in the range has a
    record that passed validation. *)
Lemma Init_valid path w w' :
  Init env path w = Returned tt w' →
  ∀ id, In id (sections_order env) → valid_conf id (conf w').
Proof.
  unfold Init. intros Hrun id Hid.
  apply bind_Returned in Hrun as (_ & w1 & _ & Hrun).
  apply bind_Returned in Hrun as (_ & w2 & _ & Hrun).
  apply bind_Returned in Hrun as ([] & w3 & Hmap & Hrun).
  apply bind_Returned in Hrun as ([] & w4 & Hreset & Hrun).
  apply map_sections_spec in Hmap as (Hall & _).
  destruct (reset_log_level_Returned w3) as (w4' & Hr & Hconf).
  rewrite Hr in Hreset. injection Hreset as ->.
  destruct (initRCloneBind_same_store env w4) as (_ & _ & _ & _ & _ & Hc).
  rewrite Hrun in Hc. cbn in Hc.
  unfold valid_conf in *. rewrite Hc, Hconf. apply Hall. by left.
Qed.

End InitPhases.

Lemma Struct_no_error fs :
  validator.Struct fs = Errors [] → ∀ f, In f fs → validate_field f = Errors [].
Proof.
  induction fs as [|f0 rest IH]; intros Hs f Hin; [destruct Hin|].
  cbn [validator.Struct] in Hs.
  destruct (validate_field f0) as [|e1] eqn:E1; [discriminate|].
  destruct (validator.Struct rest) as [|e2]; [discriminate|].
  injection Hs as Hs. apply app_eq_nil in Hs as [-> ->].
  destruct Hin as [<-|Hin]; [exact E1 | by apply IH].
Qed.

Lemma all_sections_complete id : In id all_sections.
Proof. destruct id; cbn; tauto. Qed.

(** A value passes a range tag exactly when it lies within the bounds. *)
Lemma range_field_accepts name tag lo hi v :
  range_constraint tag = Some (lo, hi) →
  (validate_field (mkField name tag (VInt v)) = Errors [] ↔ lo ≤ v ≤ hi)
  ∧ (¬ (lo ≤ v ≤ hi) →
     ∃ failed, validate_field (mkField name tag (VInt v)) = Errors [(name, failed)]).
Proof.
  intros Hr. destruct (validate_range_field name tag lo hi v Hr) as (tlo & thi & ->).
  destruct (Z.geb_spec v lo), (Z.leb_spec v hi); split;
    try (split; [intros; lia || discriminate | intros; lia || done]);
    intros; try lia; eauto.
Qed.

(** C1.  When [Init] returns, the record of every section passes
    validation against its [validate] tags.  For every field of every
    record whose tag is a numeric range from [lo] to [hi], the validator
    accepts an integer value exactly when it lies between [lo] and [hi],
    bounds included, and reports a failure of that field otherwise.  The
    [Mode] field of the Captcha record has the range from 0 to 3, so after
    [Init] it lies in it. *)
Theorem Init_records_satisfy_constraints :
  (∀ env path w w',
     Permutation (sections_order env) all_sections →
     Init env path w = Returned tt w' →
     (∀ id, validator.Struct (fields_of id (get_conf id (conf w'))) = Errors [])
     ∧ 0 ≤ captcha_Mode (CaptchaConfig (conf w')) ≤ 3)
  ∧ (∀ id (r : struct_of id) f lo hi v,
       In f (fields_of id r) →
       range_constraint (f_tag f) = Some (lo, hi) →
       (validate_field (mkField (f_name f) (f_tag f) (VInt v)) = Errors [] ↔ lo ≤ v ≤ hi)
       ∧ (¬ (lo ≤ v ≤ hi) →
          ∃ failed, validate_field (mkField (f_name f) (f_tag f) (VInt v))
                    = Errors [(f_name f, failed)]))
  ∧ (∀ c : captcha,
       In (mkField "Mode" "gte=0,lte=3" (VInt (captcha_Mode c))) (fields c)
       ∧ range_constraint "gte=0,lte=3" = Some (0, 3)
       ∧ ∀ v, validate_field (mkField "Mode" "gte=0,lte=3" (VInt v)) = Errors []
              ↔ 0 ≤ v ≤ 3).
Proof.
  assert (range_constraint "gte=0,lte=3" = Some (0, 3)) as Hmode by reflexivity.
  split; [|split].
  - intros env path w w' Hperm Hrun.
    assert (∀ id, validator.Struct (fields_of id (get_conf id (conf w'))) = Errors [])
      as Hall.
    { intros id. apply (Init_valid env path w w' Hrun).
      eapply Permutation_in; [symmetry; exact Hperm | apply all_sections_complete]. }
    split; [exact Hall|].
    pose proof (Struct_no_error _ (Hall SecCaptcha)
                  (mkField "Mode" "gte=0,lte=3" (VInt (captcha_Mode (CaptchaConfig (conf w'))))))
      as Hf.
    apply (range_field_accepts "Mode" "gte=0,lte=3" 0 3 _ Hmode).
    apply Hf. cbn. tauto.
  - intros id r f lo hi v _ Hr. by apply range_field_accepts.
  - intros c. split; [cbn; tauto|]. split; [exact Hmode|].
    intros v. by apply range_field_accepts.
Qed.

Lemma Init_records_satisfy_constraints_witness :
  let w' := final_world (Init Sample.env Sample.conf_path (Sample.world ["UNSET"] None)) in
  (∀ id, validator.Struct (fields_of id (get_conf id (conf w'))) = Errors [])
  ∧ 0 ≤ captcha_Mode (CaptchaConfig (conf w')) ≤ 3.
Proof.
  intros w'.
  apply (proj1 Init_records_satisfy_constraints
           Sample.env Sample.conf_path (Sample.world ["UNSET"] None) w').
  - reflexivity.
  - vm_compute. reflexivity.
Defined.

(** ** The default content *)

(** No character of [s] is [c]. *)
Fixpoint free_of (c : ascii) (s : string) : bool :=
  match s with
  | EmptyString => true
  | String d s' => negb (Ascii.eqb d c) && free_of c s'
  end.

Definition is_alnum (c : ascii) : bool :=
  let n := utf8.byte_of c in
  ((48 <=? n) && (n <=? 57)) || ((65 <=? n) && (n <=? 90)) || ((97 <=? n) && (n <=? 122)).

Fixpoint all_alnum (s : string) : bool :=
  match s with
  | EmptyString => true
  | String c s' => is_alnum c && all_alnum s'
  end.

Lemma all_alnum_free_of_brace s : all_alnum s = true → free_of "{" s = true.
Proof.
  induction s as [|c s IH]; [done|]. cbn [all_alnum free_of].
  intros [Hc Hs]%andb_true_iff. rewrite (IH Hs), andb_true_r.
  destruct (Ascii.eqb_spec c "{") as [->|]; [discriminate Hc | done].
Qed.

Lemma HasPrefix_self_app old b : strings.HasPrefix (old +:+ b) old = true.
Proof.
  induction old as [|c old IH]; [apply HasPrefix_nil|].
  change (String c old +:+ b) with (String c (old +:+ b)).
  cbn [strings.HasPrefix]. by rewrite Ascii.eqb_refl, IH.
Qed.

Lemma replace_from_skip old new b : ∀ a,
  strings.replace_from (String.length a) (a +:+ b) old new
  = strings.replace_from 0 b old new.
Proof.
  induction a as [|d a IH]; [done|].
  change (String d a +:+ b) with (String d (a +:+ b)). exact IH.
Qed.

(** A stretch without the first character of [old] is copied. *)
Lemma replace_from_free c0 old' new b : ∀ a,
  free_of c0 a = true →
  strings.replace_from 0 (a +:+ b) (String c0 old') new
  = a +:+ strings.replace_from 0 b (String c0 old') new.
Proof.
  induction a as [|d a IH]; [done|].
  cbn [free_of]. intros [Hd Ha]%andb_true_iff.
  change (String d a +:+ b) with (String d (a +:+ b)).
  cbn [strings.replace_from strings.HasPrefix].
  apply negb_true_iff in Hd. rewrite Hd. cbn [andb].
  change (String d a +:+ ?x) with (String d (a +:+ x)).
  by rewrite (IH Ha).
Qed.

(** An occurrence of [old] is replaced by [new]. *)
Lemma replace_from_hit c0 old' new b :
  strings.replace_from 0 (String c0 old' +:+ b) (String c0 old') new
  = new +:+ strings.replace_from 0 b (String c0 old') new.
Proof.
  change (String c0 old' +:+ b) with (String c0 (old' +:+ b)).
  cbn [strings.replace_from].
  change (String c0 (old' +:+ b)) with (String c0 old' +:+ b).
  rewrite HasPrefix_self_app.
  change (String.length (String c0 old') - 1)%nat with (String.length old' - 0)%nat.
  by rewrite Nat.sub_0_r, replace_from_skip.
Qed.

(** The template with both placeholders filled in. *)
Definition filled_conf (sessionSecret hashIDSalt : string) : string :=
  "[System]
Mode = master
Listen = :5212
SessionSecret = " +:+ sessionSecret +:+ "
HashIDSalt = " +:+ hashIDSalt +:+ "
".

Lemma Replace_session_then_salt s1 s2 :
  free_of "{" s1 = true →
  util_Replace [("{SessionSecret}", s1); ("{HashIDSalt}", s2)] defaultConf
  = filled_conf s1 s2.
Proof.
  intros H1. unfold util_Replace. cbn [foldl fst snd].
  change (strings.ReplaceAll defaultConf "{SessionSecret}" s1)
    with ("[System]
Mode = master
Listen = :5212
SessionSecret = " +:+ s1 +:+ "
HashIDSalt = " +:+ "{HashIDSalt}" +:+ "
").
  unfold strings.ReplaceAll, filled_conf.
  rewrite replace_from_free by reflexivity.
  rewrite replace_from_free by exact H1.
  rewrite replace_from_free by reflexivity.
  by rewrite replace_from_hit.
Qed.

Lemma Replace_salt_then_session s1 s2 :
  free_of "{" s2 = true →
  util_Replace [("{HashIDSalt}", s2); ("{SessionSecret}", s1)] defaultConf
  = filled_conf s1 s2.
Proof.
  intros H2. unfold util_Replace. cbn [foldl fst snd].
  change (strings.ReplaceAll defaultConf "{HashIDSalt}" s2)
    with ("[System]
Mode = master
Listen = :5212
SessionSecret = " +:+ "{SessionSecret}" +:+ "
HashIDSalt = " +:+ s2 +:+ "
").
  unfold strings.ReplaceAll, filled_conf.
  rewrite replace_from_free by reflexivity.
  rewrite replace_from_hit.
  rewrite replace_from_free by reflexivity.
  by rewrite replace_from_free by exact H2.
Qed.

Section RandomSecrets.

Context (env : Env).

Lemma letter_alnum i : is_alnum (letter i) = true.
Proof.
  unfold letter.
  assert (i mod String.length letterRunes < 62)%nat as Hlt
    by (apply Nat.mod_upper_bound; discriminate).
  revert Hlt. generalize (i mod String.length letterRunes)%nat as j. intros j Hj.
  do 62 (destruct j as [|j]; [reflexivity|]). lia.
Qed.

Lemma rand_letters_length n : ∀ pos, String.length (rand_letters env pos n) = n.
Proof. induction n as [|n IH]; intros pos; [done|]. cbn. by rewrite IH. Qed.

Lemma rand_letters_alnum n : ∀ pos, all_alnum (rand_letters env pos n) = true.
Proof.
  induction n as [|n IH]; intros pos; [done|].
  cbn [rand_letters all_alnum]. by rewrite letter_alnum, IH.
Qed.

(** The content written by [Init], whatever the order in which
    [util.Replace] ranges over its table. *)
Lemma Replace_defaultConf s1 s2 :
  all_alnum s1 = true → all_alnum s2 = true →
  util_Replace (in_range_order env ("{SessionSecret}", s1) ("{HashIDSalt}", s2))
               defaultConf
  = filled_conf s1 s2.
Proof.
  intros H1 H2. unfold in_range_order. destruct (replace_order env).
  - apply Replace_session_then_salt. by apply all_alnum_free_of_brace.
  - apply Replace_salt_then_session. by apply all_alnum_free_of_brace.
Qed.

End RandomSecrets.

(** ** File materialization, path by path *)

Section Materialize.

Context (env : Env).

(** A file system entry exists at a non-empty path: nothing is done. *)
Lemma materialize_existing path w :
  path ≠ "" → is_Some (nodes w !! path) →
  materialize env path w = Returned tt w.
Proof.
  intros Hne Hex. unfold materialize, bind, util_Exists, gets.
  rewrite bool_decide_true by done.
  destruct (String.eqb_spec path ""); [done|]. reflexivity.
Qed.

Lemma materialize_condition path w :
  path = "" ∨ nodes w !! path = None →
  String.eqb path "" || negb (bool_decide (is_Some (nodes w !! path))) = true.
Proof.
  intros [->|Hn]; [done|]. rewrite Hn.
  rewrite bool_decide_false by (by intros [? ?]). apply orb_true_r.
Qed.

(** The two secrets drawn by [Init] in a state [w]. *)
Definition sessionSecret_of (w : World) : string := rand_letters env (rand_pos w) 64.
Definition hashIDSalt_of (w : World) : string :=
  rand_letters env (rand_pos w + 64) 64.

Definition confContent_of (w : World) : string :=
  util_Replace (in_range_order env ("{SessionSecret}", sessionSecret_of w)
                                   ("{HashIDSalt}", hashIDSalt_of w))
               defaultConf.

(** Creation fails: [Init] panics before any file is opened. *)
Lemma materialize_create_fails path w err :
  path = "" ∨ nodes w !! path = None →
  create_fault env path = Some err →
  ∃ w', materialize env path w = Panic (PanicLog (MsgCreateFailed err)) w'
    ∧ nodes w' = nodes w ∧ handles w' = handles w
    ∧ trace w' = trace w ++ [EvLog SevPanic (MsgCreateFailed err)].
Proof.
  intros Hc Hf. unfold materialize, bind, util_Exists, gets.
  rewrite (materialize_condition path w Hc).
  unfold util_RandStringRunes, util_CreatNestedFile. rewrite Hf.
  unfold ret, Log_Panic, util_Log, bind, modify, panic.
  destruct (util_GloablLogger w) eqn:E; repeat (cbn; rewrite ?E);
    (eexists; split; [reflexivity|]); by cbn.
Qed.

(** The write fails: [Init] panics with the file created and its handle
    open; [Close] is not reached. *)
Lemma materialize_write_fails path w n err :
  path = "" ∨ nodes w !! path = None →
  create_fault env path = None →
  write_fault env path = Some (n, err) →
  ∃ w', materialize env path w = Panic (PanicLog (MsgWriteFailed err)) w'
    ∧ handles w' = <[next_fd w := path]> (handles w)
    ∧ trace w' = trace w ++ [EvCreate path; EvWrite (next_fd w) (confContent_of w);
                             EvLog SevPanic (MsgWriteFailed err)].
Proof.
  intros Hc Hf Hw. unfold materialize, bind, util_Exists, gets.
  rewrite (materialize_condition path w Hc).
  unfold util_RandStringRunes, util_CreatNestedFile. rewrite Hf.
  unfold bind, gets, modify, ret, WriteString, bind, gets, modify, ret.
  cbn -[rand_letters util_Replace in_range_order filepath.Dir MkdirAll].
  rewrite lookup_insert_eq, Hw.
  unfold Log_Panic, util_Log, bind, modify, panic.
  destruct (util_GloablLogger w) eqn:E;
    repeat (cbn -[rand_letters util_Replace in_range_order filepath.Dir MkdirAll];
            rewrite ?E);
    (eexists; split; [reflexivity|]);
    cbn -[rand_letters util_Replace in_range_order filepath.Dir MkdirAll];
    by rewrite <- !app_assoc.
Qed.

(** Creation and write succeed: the file holds the default content and
    its handle is closed again. *)
Lemma materialize_creates path w :
  path = "" ∨ nodes w !! path = None →
  create_fault env path = None →
  write_fault env path = None →
  ∃ w', materialize env path w = Returned tt w'
    ∧ nodes w' = <[path := File (confContent_of w)]>
                   (MkdirAll (filepath.Dir path) (nodes w))
    ∧ handles w' = delete (next_fd w) (handles w)
    ∧ rand_pos w' = (rand_pos w + 128)%nat
    ∧ trace w' = trace w ++ [EvCreate path; EvWrite (next_fd w) (confContent_of w);
                             EvClose (next_fd w)].
Proof.
  intros Hc Hf Hw. unfold materialize, bind, util_Exists, gets.
  rewrite (materialize_condition path w Hc).
  unfold util_RandStringRunes, util_CreatNestedFile. rewrite Hf.
  unfold bind, gets, modify, ret, WriteString, bind, gets, modify, ret.
  cbn -[rand_letters util_Replace in_range_order filepath.Dir MkdirAll].
  rewrite lookup_insert_eq, Hw.
  cbn -[rand_letters util_Replace in_range_order filepath.Dir MkdirAll].
  eexists. split; [reflexivity|].
  cbn -[rand_letters util_Replace in_range_order filepath.Dir MkdirAll].
  rewrite alter_insert_eq, delete_insert_eq, <- !app_assoc.
  split; [reflexivity|]. split; [reflexivity|]. split; [lia|]. reflexivity.
Qed.

(** After [materialize] nothing writes to the file system or opens or
    closes a file. *)
Lemma Init_final_files path w :
  match materialize env path w with
  | Returned _ w1 =>
      nodes (final_world (Init env path w)) = nodes w1
      ∧ handles (final_world (Init env path w)) = handles w1
      ∧ rand_pos (final_world (Init env path w)) = rand_pos w1
  | Panic p w1 => Init env path w = Panic p w1
  end.
Proof.
  rewrite Init_materialize_configure.
  destruct (materialize env path w) as [[] w1|p w1] eqn:E;
    rewrite bind_run, E; [|done].
  apply keeps_files_configure.
Qed.

End Materialize.

(** ** The trace only grows *)

Section TraceGrows.

Context (env : Env).

(** A step only adds events to the trace, however it ends. *)
Definition extends_trace {A} (m : M A) : Prop :=
  ∀ w, ∃ evs, trace (final_world (m w)) = trace w ++ evs.

Lemma extends_trace_bind {A B} (m : M A) (k : A → M B) :
  extends_trace m → (∀ a, extends_trace (k a)) → extends_trace (bind m k).
Proof.
  intros Hm Hk w. rewrite bind_run. destruct (Hm w) as [evs Hevs].
  destruct (m w) as [a w1|p w1]; cbn [final_world] in *; [|by exists evs].
  destruct (Hk a w1) as [evs' Hevs']. exists (evs ++ evs').
  by rewrite Hevs', Hevs, app_assoc.
Qed.

Lemma extends_trace_Log_Panic {A} msg : extends_trace (Log_Panic (A := A) msg).
Proof.
  intros w. rewrite Log_Panic_eq. cbn.
  destruct (touch_logger_frame w) as (_ & _ & _ & _ & _ & -> & _). by eexists.
Qed.

Lemma extends_trace_load path : extends_trace (load env path).
Proof.
  intros w. unfold load, ini_Load, bind, gets, ret, modify.
  destruct (nodes w !! path) as [[|content]|]; cbn;
    try (unfold touch_logger; cbn; destruct (util_GloablLogger w); by eexists).
  destruct (ini_parse env content); cbn; [|exists []; by rewrite app_nil_r].
  unfold touch_logger; cbn; destruct (util_GloablLogger w); by eexists.
Qed.

Lemma extends_trace_mapSection id : extends_trace (mapSection env id).
Proof.
  intros w. exists []. rewrite app_nil_r.
  destruct (mapSection env id w) as [r w'|p w'] eqn:E.
  - apply mapSection_spec in E. cbn. by destruct_and!.
  - revert E. unfold mapSection, bind, gets, panic.
    destruct (cfg w); [|by intros [= <- <-]].
    destruct (ini_MapTo env id _ _) as [v [e|]]; [discriminate|].
    cbn. destruct (validator.Struct _) as [|[|]]; try discriminate.
    by intros [= <- <-].
Qed.

Lemma extends_trace_map_sections ids : extends_trace (map_sections env ids).
Proof.
  induction ids as [|id rest IH]; [intros w; exists []; by rewrite app_nil_r|].
  cbn [map_sections]. apply extends_trace_bind; [apply extends_trace_mapSection|].
  intros [e|]; [apply extends_trace_Log_Panic | exact IH].
Qed.

Lemma extends_trace_reset_log_level : extends_trace reset_log_level.
Proof.
  intros w. exists []. rewrite app_nil_r.
  unfold reset_log_level, bind, gets, modify, util_Log.
  by destruct (system_Debug (SystemConfig (conf w))).
Qed.

Lemma extends_trace_initRCloneBind : extends_trace (initRCloneBind env).
Proof.
  intros w. destruct (touch_logger_frame w) as (_ & _ & _ & _ & _ & Ht & _).
  destruct (decide (GOOS env = "linux")) as [Hos|Hos].
  - destruct (binds_of w) as [|first rest] eqn:Hb.
    + rewrite initRCloneBind_empty by done. exists []. by rewrite app_nil_r.
    + destruct (decide (first = "UNSET")) as [->|Hf].
      * erewrite initRCloneBind_unset by done. exists []. by rewrite app_nil_r.
      * destruct (nodes w !! config_of w) as [nd|] eqn:Hc.
        -- destruct (initRCloneBind_run env w first rest) as (w' & -> & Htr & _);
             try done. by eexists.
        -- erewrite initRCloneBind_no_config by done. cbn. rewrite Ht. by eexists.
  - rewrite initRCloneBind_other_os by done. cbn. rewrite Ht. by eexists.
Qed.

Lemma extends_trace_configure path : extends_trace (configure env path).
Proof.
  unfold configure.
  apply extends_trace_bind; [apply extends_trace_load | intros _].
  apply extends_trace_bind; [apply extends_trace_map_sections | intros _].
  apply extends_trace_bind; [apply extends_trace_reset_log_level | intros _].
  apply extends_trace_initRCloneBind.
Qed.

(** The events of [materialize] open the events of [Init]. *)
Lemma Init_trace_after_materialize path w w1 evs1 :
  materialize env path w = Returned tt w1 →
  trace w1 = trace w ++ evs1 →
  ∃ evs, new_events w (final_world (Init env path w)) = evs1 ++ evs.
Proof.
  intros Hrun Ht. rewrite Init_materialize_configure, bind_run, Hrun.
  destruct (extends_trace_configure path w1) as [evs Hevs].
  exists evs. apply new_events_app. by rewrite Hevs, Ht, app_assoc.
Qed.

End TraceGrows.

(** ** Properties of file materialization *)

(** The directories [MkdirAll] makes: the directory itself and each
    non-empty prefix of its path that ends before a separator. *)
Lemma append_assoc (a b c : string) : (a +:+ b) +:+ c = a +:+ (b +:+ c).
Proof.
  induction a as [|x a IH]; [done|].
  change ((String x a +:+ b) +:+ c) with (String x ((a +:+ b) +:+ c)).
  by rewrite IH.
Qed.

Lemma append_nil_r (a : string) : a +:+ "" = a.
Proof. induction a as [|x a IH]; [done|]. change (String x (a +:+ "") = String x a). by rewrite IH. Qed.

Lemma prefixes_at_slash_spec s : ∀ pre d,
  In d (prefixes_at_slash pre s)
  ↔ d ≠ "" ∧ ∃ a rest, s = a +:+ "/" +:+ rest ∧ d = pre +:+ a.
Proof.
  induction s as [|c s IH]; intros pre d.
  - cbn. split; [done|]. intros (_ & a & rest & H & _). by destruct a.
  - cbn [prefixes_at_slash]. rewrite in_app_iff, IH. split.
    + intros [Hhere|(Hd & a & rest & -> & ->)].
      * destruct (Ascii.eqb_spec c "/") as [->|]; [|done].
        destruct (String.eqb_spec pre "") as [|Hne]; [done|]. cbn in Hhere.
        destruct Hhere as [<-|[]]. split; [done|].
        exists "", s. by rewrite append_nil_r.
      * split; [done|]. exists (String c a), rest. split; [done|].
        by rewrite append_assoc.
    + intros (Hd & a & rest & Hs & ->). destruct a as [|x a].
      * left. cbn in Hs. injection Hs as -> ->. rewrite append_nil_r in Hd |- *.
        cbn. destruct (String.eqb_spec pre ""); [done|]. by left.
      * right. change (String c s = String x (a +:+ "/" +:+ rest)) in Hs.
        injection Hs as -> ->. split; [done|]. exists a, rest. split; [done|].
        by rewrite append_assoc.
Qed.

Lemma ancestors_spec dir d :
  In d (ancestors dir) ↔ d = dir ∨ (d ≠ "" ∧ ∃ rest, dir = d +:+ "/" +:+ rest).
Proof.
  unfold ancestors. rewrite in_app_iff, prefixes_at_slash_spec. cbn. split.
  - intros [(Hd & a & rest & -> & ->)|[<-|[]]]; [right|by left].
    split; [done|]. by exists rest.
  - intros [->|(Hd & rest & ->)]; [right; by left|left].
    split; [done|]. by exists d, rest.
Qed.

Lemma MkdirAll_lookup dir m d :
  MkdirAll dir m !! d
  = if decide (d ∈ ancestors dir) then Some (default Dir (m !! d)) else m !! d.
Proof.
  unfold MkdirAll. induction (ancestors dir) as [|a l IH]; [done|].
  cbn [foldr]. remember (foldr _ m l) as r eqn:Hr. clear Hr.
  destruct (decide (d = a)) as [->|Hne].
  - rewrite decide_True by left.
    destruct (decide (a ∈ l)) as [Hin|Hin].
    + rewrite IH. exact IH.
    + destruct (m !! a) as [x|]; rewrite IH.
      * exact IH.
      * by rewrite lookup_insert_eq.
  - assert (r !! d = if decide (d ∈ a :: l) then Some (default Dir (m !! d)) else m !! d)
      as IH'.
    { rewrite IH. destruct (decide (d ∈ l)) as [Hin|Hin].
      - rewrite decide_True; [done | by right].
      - rewrite decide_False; [done|]. by intros [?|?]%elem_of_cons. }
    destruct (r !! a); [done|]. by rewrite lookup_insert_ne.
Qed.

(** The letters of a random string, draw by draw. *)
Lemma letterRunes_get j :
  (j < String.length letterRunes)%nat → is_Some (String.get j letterRunes).
Proof.
  intros Hj. do 62 (destruct j as [|j]; [by eexists|]). cbn in Hj. lia.
Qed.

Lemma letterRunes_distinct a b :
  (a < String.length letterRunes)%nat → (b < String.length letterRunes)%nat →
  String.get a letterRunes = String.get b letterRunes → a = b.
Proof.
  assert (Forall (λ a, Forall (λ b, String.get a letterRunes = String.get b letterRunes → a = b)
                         (seq 0 62)) (seq 0 62)) as Hall
    by (apply (bool_decide_unpack _); vm_compute; exact I).
  intros Ha Hb. rewrite Forall_forall in Hall.
  specialize (Hall a). rewrite Forall_forall in Hall. apply Hall.
  - apply elem_of_seq. cbn in Ha. lia.
  - apply elem_of_seq. cbn in Hb. lia.
Qed.

Lemma letter_get k :
  String.get (k mod String.length letterRunes) letterRunes = Some (letter k).
Proof.
  unfold letter.
  destruct (letterRunes_get (k mod String.length letterRunes)) as [c ->]; [|done].
  apply Nat.mod_upper_bound. discriminate.
Qed.

Lemma letter_eq_iff a b :
  letter a = letter b
  ↔ (a mod String.length letterRunes = b mod String.length letterRunes)%nat.
Proof.
  split.
  - intros H. apply letterRunes_distinct; try (apply Nat.mod_upper_bound; discriminate).
    by rewrite !letter_get, H.
  - intros H. unfold letter. by rewrite H.
Qed.

Section Draws.

Context (env : Env).

Lemma rand_letters_get n : ∀ pos i,
  (i < n)%nat →
  String.get i (rand_letters env pos n)
  = String.get (rand_Intn env (pos + i) mod String.length letterRunes) letterRunes.
Proof.
  induction n as [|n IH]; intros pos i Hi; [lia|].
  cbn [rand_letters]. destruct i as [|i].
  - rewrite Nat.add_0_r, letter_get. reflexivity.
  - cbn [String.get]. rewrite IH by lia. by rewrite Nat.add_succ_comm.
Qed.

Lemma rand_letters_eq_iff n : ∀ p q,
  rand_letters env p n = rand_letters env q n
  ↔ ∀ i, (i < n)%nat →
      (rand_Intn env (p + i) mod String.length letterRunes
       = rand_Intn env (q + i) mod String.length letterRunes)%nat.
Proof.
  induction n as [|n IH]; intros p q.
  - split; [intros _ i Hi; lia | done].
  - cbn [rand_letters]. split.
    + intros [= H0 Hrest] i Hi. destruct i as [|i].
      * rewrite !Nat.add_0_r. by apply letter_eq_iff.
      * rewrite <- !Nat.add_succ_comm. apply (proj1 (IH _ _) Hrest). lia.
    + intros H. f_equal.
      * apply letter_eq_iff. specialize (H 0%nat). rewrite !Nat.add_0_r in H. apply H. lia.
      * apply IH. intros i Hi. rewrite !Nat.add_succ_comm. apply H. lia.
Qed.

End Draws.

(** C6.  When a file exists at a non-empty path, [Init] leaves the file
    system as it was, however it ends: the file keeps its content, nothing
    is created or written, no secret is drawn from the random source; and
    running [Init] again leaves the content as it was too. *)
Theorem existing_file_left_untouched env path w content :
  path ≠ "" → nodes w !! path = Some (File content) →
  let w' := final_world (Init env path w) in
  nodes w' !! path = Some (File content)
  ∧ nodes w' = nodes w
  ∧ rand_pos w' = rand_pos w
  ∧ materialize env path w = Returned tt w
  ∧ nodes (final_world (Init env path w')) !! path = Some (File content).
Proof.
  intros Hne Hfile.
  assert (∀ w0, nodes w0 !! path = Some (File content) →
            nodes (final_world (Init env path w0)) = nodes w0
            ∧ rand_pos (final_world (Init env path w0)) = rand_pos w0
            ∧ materialize env path w0 = Returned tt w0) as Hstep.
  { intros w0 H0. pose proof (Init_final_files env path w0) as Hf.
    rewrite (materialize_existing env path w0 Hne) in Hf by (rewrite H0; by eexists).
    destruct Hf as (Hn & _ & Hr). repeat split; try done.
    apply materialize_existing; [done | rewrite H0; by eexists]. }
  intros w'. destruct (Hstep w Hfile) as (Hn & Hr & Hm).
  assert (nodes w' !! path = Some (File content)) as Hfile' by (unfold w'; by rewrite Hn).
  destruct (Hstep w' Hfile') as (Hn' & _ & _).
  repeat split; try done. by rewrite Hn'.
Qed.

Lemma existing_file_left_untouched_witness :
  nodes (final_world (Init Sample.env Sample.conf_path
                        (Sample.world ["UNSET"] (Some "[System]"))))
  !! Sample.conf_path = Some (File "[System]").
Proof.
  assert (Sample.conf_path ≠ "") as Hne by discriminate.
  assert (nodes (Sample.world ["UNSET"] (Some "[System]")) !! Sample.conf_path
          = Some (File "[System]")) as Hfile by (vm_compute; reflexivity).
  exact (proj1 (existing_file_left_untouched Sample.env Sample.conf_path
                  (Sample.world ["UNSET"] (Some "[System]")) "[System]" Hne Hfile)).
Defined.

(** C7 as the specification words it for the empty path: [Init] creates
    the file. *)
Definition file_created_on_empty_path : Prop :=
  ∀ env w, ∃ p content,
    nodes w !! p = None
    ∧ nodes (final_world (Init env "" w)) !! p = Some (File content).

(** With the empty path [Init] takes the branch of line 112 and draws the
    two secrets, but no file can be created under the empty name: the
    creation at line 118 fails, [Init] ends in the fatal log of line 120,
    and the file system is as it was. *)
Lemma empty_path_creates_no_file :
  let w := Sample.world ["UNSET"] None in
  let o := Init Sample.env "" w in
  o = Panic (PanicLog (MsgCreateFailed (ErrOS "open : no such file or directory")))
            (final_world o)
  ∧ nodes (final_world o) = nodes w
  ∧ new_events w (final_world o)
    = [EvLog SevPanic (MsgCreateFailed (ErrOS "open : no such file or directory"))]
  ∧ ¬ file_created_on_empty_path.
Proof.
  intros w o.
  assert (nodes (final_world o) = nodes w) as Hn by (vm_compute; reflexivity).
  split; [vm_compute; reflexivity|]. split; [exact Hn|].
  split; [vm_compute; reflexivity|].
  intros Hall. destruct (Hall Sample.env w) as (p & content & Hnone & Hsome).
  fold o in Hsome. rewrite Hn, Hnone in Hsome. discriminate Hsome.
Qed.

(** C7.  When nothing exists at the path and creating and writing the
    file succeed, then however [Init] ends: the file exists and holds the
    default template with [{SessionSecret}] and [{HashIDSalt}] each
    replaced by a string of exactly 64 letters and digits.  The i-th
    character of the first is the letter picked by draw [rand_pos + i] of
    the random source and the i-th character of the second the letter
    picked by draw [rand_pos + 64 + i], so the two secrets are equal only
    if those draws pick the same letters throughout, and the 128 draws are
    used up.  The directory of the file and every directory above it that
    was missing is a directory afterwards; an entry that was there is left
    as it is, and so is every other path.  With the empty path nothing is
    created: the creation fails and [Init] ends in the fatal log. *)
Theorem absent_file_created_with_secrets env path w :
  let w' := final_world (Init env path w) in
  (nodes w !! path = None → create_fault env path = None → write_fault env path = None →
   ∃ sessionSecret hashIDSalt,
     nodes w' !! path = Some (File (filled_conf sessionSecret hashIDSalt))
     ∧ util_Replace (in_range_order env ("{SessionSecret}", sessionSecret)
                                        ("{HashIDSalt}", hashIDSalt)) defaultConf
       = filled_conf sessionSecret hashIDSalt
     ∧ String.length sessionSecret = 64%nat ∧ String.length hashIDSalt = 64%nat
     ∧ all_alnum sessionSecret = true ∧ all_alnum hashIDSalt = true
     ∧ sessionSecret = rand_letters env (rand_pos w) 64
     ∧ hashIDSalt = rand_letters env (rand_pos w + 64) 64
     ∧ (∀ i, (i < 64)%nat →
          String.get i sessionSecret
          = String.get (rand_Intn env (rand_pos w + i) mod String.length letterRunes)
                       letterRunes
          ∧ String.get i hashIDSalt
            = String.get (rand_Intn env (rand_pos w + 64 + i) mod String.length letterRunes)
                         letterRunes)
     ∧ (sessionSecret = hashIDSalt
        ↔ ∀ i, (i < 64)%nat →
            (rand_Intn env (rand_pos w + i) mod String.length letterRunes
             = rand_Intn env (rand_pos w + 64 + i) mod String.length letterRunes)%nat)
     ∧ rand_pos w' = (rand_pos w + 128)%nat
     ∧ (∀ d rest, d ≠ path →
          filepath.Dir path = d ∨ (d ≠ "" ∧ filepath.Dir path = d +:+ "/" +:+ rest) →
          nodes w' !! d = Some (default Dir (nodes w !! d)))
     ∧ (∀ d, d ≠ path → filepath.Dir path ≠ d →
          (∀ rest, d ≠ "" → filepath.Dir path ≠ d +:+ "/" +:+ rest) →
          nodes w' !! d = nodes w !! d))
  ∧ (path = "" →
     ∃ err, create_fault env "" = Some err
       ∧ Init env path w = Panic (PanicLog (MsgCreateFailed err)) w'
       ∧ nodes w' = nodes w ∧ handles w' = handles w
       ∧ new_events w w' = [EvLog SevPanic (MsgCreateFailed err)]).
Proof.
  intros w'. split.
  - intros Hn Hf Hw.
    destruct (materialize_creates env path w (or_intror Hn) Hf Hw)
      as (w1 & Hrun & Hnodes & _ & Hrand & _).
    pose proof (Init_final_files env path w) as Hfin. rewrite Hrun in Hfin.
    destruct Hfin as (Hn' & _ & Hr').
    exists (rand_letters env (rand_pos w) 64), (rand_letters env (rand_pos w + 64) 64).
    assert (util_Replace
              (in_range_order env ("{SessionSecret}", rand_letters env (rand_pos w) 64)
                                  ("{HashIDSalt}", rand_letters env (rand_pos w + 64) 64))
              defaultConf
            = filled_conf (rand_letters env (rand_pos w) 64)
                          (rand_letters env (rand_pos w + 64) 64)) as Hcontent
      by (apply Replace_defaultConf; apply rand_letters_alnum).
    unfold w'. rewrite Hn', Hnodes, Hr', Hrand.
    split; [rewrite lookup_insert_eq; unfold confContent_of, sessionSecret_of, hashIDSalt_of;
            by rewrite Hcontent|].
    split; [exact Hcontent|].
    rewrite !rand_letters_length, !rand_letters_alnum.
    do 6 (split; [reflexivity|]).
    split; [intros i Hi; split; by apply rand_letters_get|].
    split; [apply rand_letters_eq_iff|].
    split; [reflexivity|]. split.
    + intros d rest Hd Hway. rewrite lookup_insert_ne by done.
      rewrite MkdirAll_lookup, decide_True; [done|].
      apply list_elem_of_In, ancestors_spec.
      destruct Hway as [<-|[Hne ->]]; [by left | right; split; [done | by eexists]].
    + intros d Hd Hdir Hway. rewrite lookup_insert_ne by done.
      rewrite MkdirAll_lookup, decide_False; [done|].
      intros [->|(Hne & rest & Heq)]%list_elem_of_In%ancestors_spec; [done|].
      by apply (Hway rest).
  - intros ->. destruct (create_fault_empty env) as [err Herr].
    destruct (materialize_create_fails env "" w err (or_introl eq_refl) Herr)
      as (w1 & Hrun & Hn & Hh & Ht).
    pose proof (Init_final_files env "" w) as Hfin. rewrite Hrun in Hfin.
    exists err. unfold w'. rewrite Hfin. cbn [final_world].
    repeat split; try done. by apply new_events_app.
Qed.

Lemma absent_file_created_with_secrets_witness :
  let w := Sample.world ["UNSET"] None in
  let w' := final_world (Init Sample.env "/var/lib/cloudreve/conf.ini" w) in
  (∃ s1 s2,
     nodes w' !! "/var/lib/cloudreve/conf.ini" = Some (File (filled_conf s1 s2))
     ∧ String.length s1 = 64%nat ∧ String.length s2 = 64%nat ∧ s1 ≠ s2)
  ∧ nodes w !! "/var" = None
  ∧ nodes w' !! "/var" = Some Dir
  ∧ nodes w' !! "/var/lib" = Some Dir
  ∧ nodes w' !! "/var/lib/cloudreve" = Some Dir
  ∧ nodes w' !! "/etc/rclone.conf" = Some (File "[remote]")
  ∧ ∃ err, Init Sample.env "" w
           = Panic (PanicLog (MsgCreateFailed err)) (final_world (Init Sample.env "" w)).
Proof.
  intros w w'. subst w'.
  pose proof (absent_file_created_with_secrets Sample.env "/var/lib/cloudreve/conf.ini" w)
    as H.
  cbv zeta in H. destruct H as [Hcreate _].
  assert (nodes w !! "/var/lib/cloudreve/conf.ini" = None) as Hnone
    by (vm_compute; reflexivity).
  assert (create_fault Sample.env "/var/lib/cloudreve/conf.ini" = None) as Hf
    by (vm_compute; reflexivity).
  assert (write_fault Sample.env "/var/lib/cloudreve/conf.ini" = None) as Hw
    by (vm_compute; reflexivity).
  assert (filepath.Dir "/var/lib/cloudreve/conf.ini" = "/var/lib/cloudreve") as Hdir
    by (vm_compute; reflexivity).
  destruct (Hcreate Hnone Hf Hw)
    as (s1 & s2 & Hfile & _ & H1 & H2 & _ & _ & _ & _ & _ & Hsame & _ & Hdirs & Hrest).
  rewrite Hdir in Hdirs, Hrest.
  assert (nodes w !! "/var" = None) as Hvar by (vm_compute; reflexivity).
  assert (nodes w !! "/var/lib" = None) as Hlib by (vm_compute; reflexivity).
  assert (nodes w !! "/var/lib/cloudreve" = None) as Hcr by (vm_compute; reflexivity).
  assert (nodes w !! "/etc/rclone.conf" = Some (File "[remote]")) as Hrc
    by (vm_compute; reflexivity).
  split.
  { exists s1, s2. split; [exact Hfile|]. split; [exact H1|]. split; [exact H2|].
    intros Heq. pose proof (proj1 Hsame Heq 0%nat ltac:(lia)) as H0.
    vm_compute in H0. discriminate H0. }
  split; [exact Hvar|].
  split.
  { rewrite (Hdirs "/var" "lib/cloudreve"), Hvar; [done | discriminate |].
    right. split; [discriminate | reflexivity]. }
  split.
  { rewrite (Hdirs "/var/lib" "cloudreve"), Hlib; [done | discriminate |].
    right. split; [discriminate | reflexivity]. }
  split.
  { rewrite (Hdirs "/var/lib/cloudreve" ""), Hcr; [done | discriminate |]. by left. }
  split.
  { rewrite Hrest, Hrc; [done | discriminate | discriminate |].
    intros rest _ Heq. discriminate Heq. }
  pose proof (absent_file_created_with_secrets Sample.env "" w) as H.
  cbv zeta in H. destruct H as [_ Hempty].
  destruct (Hempty eq_refl) as (err & _ & Hrun & _). by exists err.
Defined.

(** C8 as the specification words it: whatever way [Init] ends, every
    file handle open at that point was open before. *)
Definition handle_closed_on_every_exit : Prop :=
  ∀ env path w fd,
    is_Some (handles (final_world (Init env path w)) !! fd) →
    is_Some (handles w !! fd).

(** On a full disk the write of the default content fails: [Init] ends in
    the logger's panic with the handle of the new file still open and no
    [Close] in the trace. *)
Lemma write_failure_leaves_handle_open :
  let w := Sample.world ["UNSET"] None in
  let o := Init Sample.env_disk_full Sample.conf_path w in
  o = Panic (PanicLog (MsgWriteFailed (ErrOS "no space left on device"))) (final_world o)
  ∧ handles w !! 3%nat = None
  ∧ handles (final_world o) !! 3%nat = Some Sample.conf_path
  ∧ (∀ fd, ¬ In (EvClose fd) (trace (final_world o)))
  ∧ ¬ handle_closed_on_every_exit.
Proof.
  intros w o.
  assert (handles (final_world o) !! 3%nat = Some Sample.conf_path) as Hopen
    by (vm_compute; reflexivity).
  split; [vm_compute; reflexivity|].
  split; [vm_compute; reflexivity|].
  split; [exact Hopen|]. split.
  - intros fd. vm_compute. intros [H|[H|[H|[]]]]; discriminate H.
  - intros Hall.
    destruct (Hall Sample.env_disk_full Sample.conf_path w 3%nat) as [p Hp].
    + fold o. rewrite Hopen. by eexists.
    + vm_compute in Hp. discriminate Hp.
Qed.

(** C8, as the code has it.  When nothing is created, or creation fails,
    [Init] opens no file; when the default content is written the handle
    is closed before the file is parsed, so it is closed however [Init]
    ends after that; when the write fails [Init] ends in the logger's
    panic with the handle open and no [Close] performed. *)
Theorem handle_closed_unless_write_fails env path w :
  let w' := final_world (Init env path w) in
  (path ≠ "" → is_Some (nodes w !! path) → handles w' = handles w)
  ∧ (path = "" ∨ nodes w !! path = None →
     (∀ err, create_fault env path = Some err →
        Init env path w = Panic (PanicLog (MsgCreateFailed err)) w'
        ∧ handles w' = handles w)
     ∧ (create_fault env path = None → write_fault env path = None →
        handles w' = delete (next_fd w) (handles w)
        ∧ handles w' !! next_fd w = None
        ∧ In (EvClose (next_fd w)) (new_events w w'))
     ∧ (∀ n err, create_fault env path = None → write_fault env path = Some (n, err) →
        Init env path w = Panic (PanicLog (MsgWriteFailed err)) w'
        ∧ handles w' !! next_fd w = Some path
        ∧ ∀ fd, ¬ In (EvClose fd) (new_events w w'))).
Proof.
  intros w'. pose proof (Init_final_files env path w) as Hfin. split.
  - intros Hne Hex. rewrite (materialize_existing env path w Hne Hex) in Hfin.
    by destruct Hfin as (_ & Hh & _).
  - intros Hc. split; [|split].
    + intros err Hf.
      destruct (materialize_create_fails env path w err Hc Hf) as (w1 & Hrun & _ & Hh & _).
      rewrite Hrun in Hfin. unfold w'. rewrite Hfin. by split.
    + intros Hf Hw.
      destruct (materialize_creates env path w Hc Hf Hw) as (w1 & Hrun & _ & Hh & _ & Ht).
      destruct (Init_trace_after_materialize env path w w1 _ Hrun Ht) as [evs Hev].
      rewrite Hrun in Hfin. destruct Hfin as (_ & Hh' & _).
      unfold w'. rewrite Hh', Hh, Hev. split; [done|]. split; [apply lookup_delete_eq|].
      apply in_or_app. left. right. right. by left.
    + intros n err Hf Hw.
      destruct (materialize_write_fails env path w n err Hc Hf Hw) as (w1 & Hrun & Hh & Ht).
      rewrite Hrun in Hfin. unfold w'. rewrite Hfin. cbn [final_world].
      split; [done|]. split; [rewrite Hh; apply lookup_insert_eq|].
      intros fd. rewrite (new_events_app w w1 _ Ht).
      intros [H|[H|[H|[]]]]; discriminate H.
Qed.

Lemma handle_closed_unless_write_fails_witness :
  handles (final_world (Init Sample.env Sample.conf_path (Sample.world ["UNSET"] None)))
  !! 3%nat = None
  ∧ handles (final_world (Init Sample.env_disk_full Sample.conf_path
                            (Sample.world ["UNSET"] None)))
    !! 3%nat = Some Sample.conf_path.
Proof.
  assert (Sample.conf_path = ""
          ∨ nodes (Sample.world ["UNSET"] None) !! Sample.conf_path = None) as Hc
    by (right; vm_compute; reflexivity).
  split.
  - pose proof (handle_closed_unless_write_fails Sample.env Sample.conf_path
                  (Sample.world ["UNSET"] None)) as H.
    cbv zeta in H. destruct H as (_ & Hcreate).
    destruct (Hcreate Hc) as (_ & Hok & _).
    exact (proj1 (proj2 (Hok eq_refl eq_refl))).
  - pose proof (handle_closed_unless_write_fails Sample.env_disk_full Sample.conf_path
                  (Sample.world ["UNSET"] None)) as H.
    cbv zeta in H. destruct H as (_ & Hcreate).
    destruct (Hcreate Hc) as (_ & _ & Hfail).
    exact (proj1 (proj2 (Hfail 0%nat (ErrOS "no space left on device") eq_refl eq_refl))).
Defined.

(** * Further properties of [conf.go] *)

(** ** The early exits of [initRCloneBind] *)

(** The sample process on another platform. *)
Definition env_on (goos : string) : Env := {|
  GOOS := goos;
  Getwd := Getwd Sample.env;
  rand_Intn := rand_Intn Sample.env;
  create_fault := create_fault Sample.env;
  create_fault_empty := create_fault_empty Sample.env;
  write_fault := write_fault Sample.env;
  ini_parse := ini_parse Sample.env;
  ini_MapTo := ini_MapTo Sample.env;
  sections_order := sections_order Sample.env;
  replace_order := replace_order Sample.env;
|}.

(** X1.  On a platform other than Linux the step logs the one warning
    that names the platform and returns.  It does not look at the bind
    list, so an empty list is no panic there; nothing is registered with
    the remote driver and [util.OS] keeps its value. *)
Theorem unsupported_platform_only_warns env w :
  GOOS env ≠ "linux" →
  ∃ w', initRCloneBind env w = Returned tt w'
    ∧ new_events w w' = [EvLog SevWarning (MsgUnsupportedOS (GOOS env))]
    ∧ util_OS w' = util_OS w
    ∧ rclone_ConfigPath w' = rclone_ConfigPath w
    ∧ same_store w w'.
Proof.
  intros Hos. rewrite (initRCloneBind_other_os env w Hos).
  destruct (touch_logger_frame w) as (Hn & Hh & Hc & Ho & Hp & Ht & Hr & Hf & Hg).
  eexists. split; [reflexivity|].
  split; [apply new_events_app; cbn; by rewrite Ht|].
  cbn. unfold same_store. cbn. by repeat split.
Qed.

Lemma unsupported_platform_only_warns_witness :
  ∃ w', initRCloneBind (env_on "darwin") (Sample.world [] None) = Returned tt w'
    ∧ new_events (Sample.world [] None) w' = [EvLog SevWarning (MsgUnsupportedOS "darwin")]
    ∧ util_OS w' = OsFs.
Proof.
  destruct (unsupported_platform_only_warns (env_on "darwin") (Sample.world [] None))
    as (w' & Hrun & Hev & Hos & _).
  - discriminate.
  - exists w'. split; [exact Hrun|]. split; [exact Hev | exact Hos].
Defined.

(** X2.  On Linux, with a first entry other than ["UNSET"], a missing
    RClone configuration file ends the step with the one warning that
    names the file: nothing is registered with the remote driver, no bind
    entry is examined (a colon-less entry draws no warning of its own) and
    [util.OS] keeps its value. *)
Theorem missing_rclone_config_only_warns env w first rest :
  GOOS env = "linux" → binds_of w = first :: rest → first ≠ "UNSET" →
  nodes w !! config_of w = None →
  ∃ w', initRCloneBind env w = Returned tt w'
    ∧ new_events w w' = [EvLog SevWarning (MsgRCloneConfigNotFound (config_of w))]
    ∧ util_OS w' = util_OS w
    ∧ rclone_ConfigPath w' = rclone_ConfigPath w
    ∧ same_store w w'.
Proof.
  intros Hos Hb Hf Hc. rewrite (initRCloneBind_no_config env w first rest Hos Hb Hf Hc).
  destruct (touch_logger_frame w) as (Hn & Hh & Hcf & Ho & Hp & Ht & Hr & Hfd & Hg).
  eexists. split; [reflexivity|].
  split; [apply new_events_app; cbn; by rewrite Ht|].
  cbn. unfold same_store. cbn. by repeat split.
Qed.

(** The sample state without the RClone configuration file. *)
Definition world_without_rclone_conf (binds : list string) : World :=
  set_nodes (delete "/etc/rclone.conf") (Sample.world binds None).

Lemma missing_rclone_config_only_warns_witness :
  ∃ w', initRCloneBind Sample.env (world_without_rclone_conf ["bad-entry-no-colon"])
        = Returned tt w'
    ∧ new_events (world_without_rclone_conf ["bad-entry-no-colon"]) w'
      = [EvLog SevWarning (MsgRCloneConfigNotFound "/etc/rclone.conf")]
    ∧ rclone_ConfigPath w' = None.
Proof.
  destruct (missing_rclone_config_only_warns Sample.env
              (world_without_rclone_conf ["bad-entry-no-colon"])
              "bad-entry-no-colon" [])
    as (w' & Hrun & Hev & _ & Hcp & _).
  - reflexivity.
  - reflexivity.
  - discriminate.
  - vm_compute. reflexivity.
  - exists w'. split; [exact Hrun|]. split; [exact Hev | exact Hcp].
Defined.

(** ** The loop over the bind entries *)

(** What the loop does for one entry [loc:remote]: the information
    message, then the remote handle or the warning about the path. *)
Definition bind_events (getwd : option string) (p : string * string) : list Event :=
  [ EvLog SevInfo (MsgRCloneBind p.2 p.1);
    match filepath.Abs getwd p.1 with
    | Some _ => EvNewRCloneFs p.2
    | None => EvLog SevWarning (MsgAbsFailed p.1)
    end ].

Lemma loop_events_entries env entries :
  Forall (λ p, ¬ has_colon p.1) entries →
  loop_events env (bind_string <$> entries)
  = flat_map (bind_events (Getwd env)) entries.
Proof.
  induction 1 as [|[loc remote] rest Hloc _ IH]; [done|].
  cbn [fmap list_fmap loop_events flat_map].
  rewrite decide_True by apply has_colon_bind_string.
  rewrite IH. unfold entry_events, bind_events.
  rewrite (SplitN_bind_string loc remote Hloc). cbn [fst snd].
  by destruct (filepath.Abs (Getwd env) loc).
Qed.

(** X3.  On Linux with the RClone configuration file present, the loop
    stops at the first entry without a colon: the entries before it are
    processed one by one (their remote handles are built and stay built),
    the warning names that entry, no entry after it is examined, and no
    table is installed. *)
Theorem first_malformed_entry_stops_loop env w pre bad post :
  GOOS env = "linux" → is_Some (nodes w !! config_of w) →
  binds_of w = (bind_string <$> pre) ++ bad :: post →
  Forall (λ p, ¬ has_colon p.1) pre →
  ¬ has_colon bad →
  (pre = [] → bad ≠ "UNSET") →
  ∃ w', initRCloneBind env w = Returned tt w'
    ∧ new_events w w'
      = EvSetConfigPath (config_of w)
        :: flat_map (bind_events (Getwd env)) pre
        ++ [EvLog SevWarning (MsgBadBind bad)]
    ∧ util_OS w' = util_OS w
    ∧ rclone_ConfigPath w' = Some (config_of w).
Proof.
  intros Hos Hcfg Hb Hpre Hbad Hfirst.
  destruct (binds_of w) as [|first rest] eqn:Hbw.
  { by apply app_cons_not_nil in Hb. }
  assert (first ≠ "UNSET") as Hf.
  { destruct pre as [|p pre'].
    - cbn in Hb. injection Hb as -> _. by apply Hfirst.
    - cbn in Hb. injection Hb as -> _. apply bind_string_not_UNSET. }
  destruct (initRCloneBind_run env w first rest Hos Hbw Hf Hcfg)
    as (w' & Hrun & Htr & Hcp & Hos' & _).
  exists w'. split; [exact Hrun|]. rewrite Hbw, Hb in *.
  split; [|split; [|exact Hcp]].
  - rewrite (new_events_app w w' _ Htr). f_equal.
    rewrite loop_events_app by apply Forall_has_colon_bind_strings.
    rewrite (loop_events_entries env pre Hpre). f_equal.
    cbn [loop_events]. rewrite decide_False by done.
    unfold entry_events. rewrite (SplitN_colon_none bad Hbad). by rewrite app_nil_r.
  - rewrite loop_table_malformed in Hos'; [done|].
    exists bad. split; [apply in_or_app; right; by left | done].
Qed.

Lemma first_malformed_entry_stops_loop_witness :
  ∃ w', initRCloneBind Sample.env
          (Sample.world ["/data:remote:a"; "bad"; "worse"; "/mnt:remote:c"] None)
        = Returned tt w'
    ∧ new_events (Sample.world ["/data:remote:a"; "bad"; "worse"; "/mnt:remote:c"] None) w'
      = [ EvSetConfigPath "/etc/rclone.conf";
          EvLog SevInfo (MsgRCloneBind "remote:a" "/data");
          EvNewRCloneFs "remote:a";
          EvLog SevWarning (MsgBadBind "bad") ]
    ∧ util_OS w' = OsFs.
Proof.
  destruct (first_malformed_entry_stops_loop Sample.env
              (Sample.world ["/data:remote:a"; "bad"; "worse"; "/mnt:remote:c"] None)
              [("/data", "remote:a")] "bad" ["worse"; "/mnt:remote:c"])
    as (w' & Hrun & Hev & Hos & _).
  - reflexivity.
  - exists (File "[remote]"). vm_compute. reflexivity.
  - reflexivity.
  - constructor; [|constructor]. by intros [? [=]].
  - by intros [? [=]].
  - discriminate.
  - exists w'. split; [exact Hrun|]. split; [exact Hev | exact Hos].
Defined.

(** ** The installed table *)

(** The step on a list of entries [loc:remote]: the table is installed. *)
Lemma initRCloneBind_entries env w entries :
  GOOS env = "linux" → is_Some (nodes w !! config_of w) →
  entries ≠ [] → Forall (λ p, ¬ has_colon p.1) entries →
  binds_of w = bind_string <$> entries →
  ∃ w', initRCloneBind env w = Returned tt w'
    ∧ util_OS w' = BindPathFs (foldl (add_bind (Getwd env)) {[ "/" := OsFs ]} entries).
Proof.
  intros Hos Hcfg Hne Hall Hb. destruct entries as [|p rest]; [done|].
  destruct (initRCloneBind_run env w (bind_string p) (bind_string <$> rest))
    as (w' & Hrun & _ & _ & Hos' & _); try done.
  { apply bind_string_not_UNSET. }
  exists w'. split; [exact Hrun|].
  by rewrite Hos', Hb, (loop_table_entries env (p :: rest) _ Hall).
Qed.

(** The local part of the entry has the absolute form [t]. *)
Definition resolves_to (getwd : option string) (t : string) (p : string * string) : Prop :=
  filepath.Abs getwd p.1 = Some t.

#[export] Instance resolves_to_dec getwd t p : Decision (resolves_to getwd t p).
Proof. unfold resolves_to. apply _. Defined.

Lemma foldl_add_bind_lookup getwd t entries : ∀ bp,
  foldl (add_bind getwd) bp entries !! t
  = match last (filter (resolves_to getwd t) entries) with
    | Some p => Some (RCloneFs p.2)
    | None => bp !! t
    end.
Proof.
  induction entries as [|p l IH] using rev_ind; intros bp; [done|].
  rewrite foldl_app, filter_app. cbn [foldl]. unfold add_bind at 1.
  destruct (filepath.Abs getwd p.1) as [t'|] eqn:E.
  - destruct (decide (t' = t)) as [->|Hne].
    + rewrite lookup_insert_eq, filter_cons_True by exact E.
      by rewrite filter_nil, last_snoc.
    + rewrite lookup_insert_ne by done.
      rewrite filter_cons_False by (unfold resolves_to; congruence).
      by rewrite filter_nil, app_nil_r.
  - rewrite filter_cons_False by (unfold resolves_to; congruence).
    by rewrite filter_nil, app_nil_r.
Qed.

(** X4.  On Linux with the RClone configuration file present, for a list
    of entries [loc:remote]: the installed table maps an absolute path to
    the remote of the last entry whose local part has that absolute form,
    so a later entry replaces an earlier one for the same path; the root
    is the local file system unless an entry is bound to the root itself;
    the table has no other key. *)
Theorem installed_table_lookup env w entries :
  GOOS env = "linux" → is_Some (nodes w !! config_of w) →
  entries ≠ [] → Forall (λ p, ¬ has_colon p.1) entries →
  binds_of w = bind_string <$> entries →
  ∃ w' bindPoints,
    initRCloneBind env w = Returned tt w'
    ∧ util_OS w' = BindPathFs bindPoints
    ∧ ∀ t, bindPoints !! t
           = match last (filter (resolves_to (Getwd env) t) entries) with
             | Some p => Some (RCloneFs p.2)
             | None => if decide (t = "/") then Some OsFs else None
             end.
Proof.
  intros Hos Hcfg Hne Hall Hb.
  destruct (initRCloneBind_entries env w entries Hos Hcfg Hne Hall Hb) as (w' & Hrun & Hos').
  exists w', (foldl (add_bind (Getwd env)) {[ "/" := OsFs ]} entries).
  split; [exact Hrun|]. split; [exact Hos'|].
  intros t. rewrite foldl_add_bind_lookup.
  destruct (last _); [done|].
  destruct (decide (t = "/")) as [->|Hne'].
  - apply lookup_singleton_eq.
  - by apply lookup_singleton_ne.
Qed.

Lemma installed_table_lookup_witness :
  ∃ w' bindPoints,
    initRCloneBind Sample.env
      (Sample.world ["/data:remote:a"; "/:remote:root"; "/data/:remote:b"] None)
    = Returned tt w'
    ∧ util_OS w' = BindPathFs bindPoints
    ∧ bindPoints !! "/data" = Some (RCloneFs "remote:b")
    ∧ bindPoints !! "/" = Some (RCloneFs "remote:root")
    ∧ bindPoints !! "/mnt" = None.
Proof.
  destruct (installed_table_lookup Sample.env
              (Sample.world ["/data:remote:a"; "/:remote:root"; "/data/:remote:b"] None)
              [("/data", "remote:a"); ("/", "remote:root"); ("/data/", "remote:b")])
    as (w' & bp & Hrun & Hos & Hlook).
  - reflexivity.
  - exists (File "[remote]"). vm_compute. reflexivity.
  - discriminate.
  - repeat constructor; by intros [? [=]].
  - reflexivity.
  - exists w', bp. split; [exact Hrun|]. split; [exact Hos|].
    rewrite !Hlook. repeat split; vm_compute; reflexivity.
Defined.

Lemma HasPrefix_slash s : strings.HasPrefix ("/" +:+ s) "/" = true.
Proof. change ("/" +:+ s) with (String "/" s). simpl. apply HasPrefix_nil. Qed.

Lemma IsAbs_Clean path : filepath.IsAbs path = true → filepath.IsAbs (filepath.Clean path) = true.
Proof.
  intros H. unfold filepath.Clean.
  destruct (decide (path = "")) as [->|_]; [discriminate H|].
  rewrite H. apply HasPrefix_slash.
Qed.

Lemma IsAbs_app a b : filepath.IsAbs a = true → filepath.IsAbs (a +:+ b) = true.
Proof.
  destruct a as [|c a]; [discriminate|]. intros H.
  change (String c a +:+ b) with (String c (a +:+ b)).
  unfold filepath.IsAbs in *. simpl in *. rewrite HasPrefix_nil in *. exact H.
Qed.

(** [filepath.Abs] yields an absolute path when the working directory is
    one. *)
Lemma Abs_IsAbs getwd path t :
  (∀ wd, getwd = Some wd → filepath.IsAbs wd = true) →
  filepath.Abs getwd path = Some t → filepath.IsAbs t = true.
Proof.
  intros Hwd. unfold filepath.Abs.
  destruct (filepath.IsAbs path) eqn:E.
  - intros [= <-]. by apply IsAbs_Clean.
  - destruct getwd as [wd|]; [|discriminate]. cbn. intros [= <-].
    specialize (Hwd wd eq_refl). unfold filepath.Join.
    destruct (decide (wd = "")) as [->|_]; [discriminate Hwd|].
    by apply IsAbs_Clean, IsAbs_app.
Qed.

Lemma foldl_add_bind_size getwd entries : ∀ bp,
  (size (foldl (add_bind getwd) bp entries) ≤ size bp + length entries)%nat.
Proof.
  induction entries as [|p l IH]; intros bp; [cbn; lia|].
  cbn [foldl length]. etrans; [apply IH|].
  unfold add_bind. destruct (filepath.Abs getwd p.1) as [t|]; [|lia].
  destruct (bp !! t) eqn:E.
  - rewrite map_size_insert_Some by done. lia.
  - rewrite map_size_insert_None by done. lia.
Qed.

(** X5.  Whatever the bind list and however the step ends, [util.OS]
    either keeps its value or becomes a table that has an entry for the
    root, has only absolute paths as keys (the working directory being an
    absolute path) and has at most one entry more than the bind list. *)
Theorem installed_table_invariants env w :
  (∀ wd, Getwd env = Some wd → filepath.IsAbs wd = true) →
  util_OS (final_world (initRCloneBind env w)) = util_OS w
  ∨ ∃ bindPoints,
      util_OS (final_world (initRCloneBind env w)) = BindPathFs bindPoints
      ∧ is_Some (bindPoints !! "/")
      ∧ (∀ k, is_Some (bindPoints !! k) → filepath.IsAbs k = true)
      ∧ (size bindPoints ≤ S (length (binds_of w)))%nat.
Proof.
  intros Hwd.
  destruct (decide (GOOS env = "linux")) as [Hos|Hos];
    [|left; rewrite (initRCloneBind_other_os env w Hos); cbn;
      by destruct (touch_logger_frame w) as (_ & _ & _ & -> & _)].
  destruct (binds_of w) as [|first rest] eqn:Hb;
    [left; by rewrite (initRCloneBind_empty env w Hos Hb)|].
  destruct (decide (first = "UNSET")) as [->|Hf];
    [left; by rewrite (initRCloneBind_unset env w rest Hos Hb)|].
  destruct (nodes w !! config_of w) as [nd|] eqn:Hcfg.
  2: { left. rewrite (initRCloneBind_no_config env w first rest Hos Hb Hf Hcfg). cbn.
       by destruct (touch_logger_frame w) as (_ & _ & _ & -> & _). }
  destruct (decide (Forall has_colon (first :: rest))) as [Hall|Hbad].
  - right. destruct (has_colon_decompose _ Hall) as (entries & He & Hloc).
    destruct (initRCloneBind_entries env w entries) as (w' & Hrun & Hos'); try done.
    { by destruct entries. }
    { by rewrite Hb. }
    rewrite Hrun. cbn [final_world].
    exists (foldl (add_bind (Getwd env)) {[ "/" := OsFs ]} entries).
    split; [exact Hos'|]. split; [|split].
    + rewrite foldl_add_bind_lookup. destruct (last _); [by eexists|].
      rewrite lookup_singleton_eq. by eexists.
    + intros k. rewrite foldl_add_bind_lookup.
      destruct (last _) as [p|] eqn:El.
      * intros _. apply last_Some_elem_of, list_elem_of_filter in El as [Hres _].
        by eapply Abs_IsAbs.
      * destruct (decide (k = "/")) as [->|Hne]; [done|].
        rewrite lookup_singleton_ne by done. by intros [? ?].
    + etrans; [apply foldl_add_bind_size|].
      rewrite map_size_singleton, He, length_fmap. lia.
  - left. apply not_Forall_Exists in Hbad; [|apply _].
    apply Exists_exists in Hbad as (kv & Hin & Hnc).
    destruct (initRCloneBind_run env w first rest Hos Hb Hf) as (w' & -> & _ & _ & Hos' & _).
    { rewrite Hcfg. by eexists. }
    cbn [final_world]. rewrite Hos', Hb.
    rewrite loop_table_malformed; [done|].
    exists kv. split; [by apply list_elem_of_In | done].
Qed.

Lemma installed_table_invariants_witness :
  let w := Sample.world ["/data:remote:a"; "rel/path:remote:b"] None in
  util_OS (final_world (initRCloneBind Sample.env w)) = util_OS w
  ∨ ∃ bindPoints,
      util_OS (final_world (initRCloneBind Sample.env w)) = BindPathFs bindPoints
      ∧ is_Some (bindPoints !! "/")
      ∧ (∀ k, is_Some (bindPoints !! k) → filepath.IsAbs k = true)
      ∧ (size bindPoints ≤ 3)%nat.
Proof.
  intros w. apply (installed_table_invariants Sample.env w).
  intros wd [= <-]. reflexivity.
Defined.

(** ** The struct tags, record by record *)

Lemma Struct_ok_iff fs :
  validator.Struct fs = Errors [] ↔ Forall (λ f, validate_field f = Errors []) fs.
Proof.
  split.
  - intros H. apply Forall_forall. intros f Hf.
    apply (Struct_no_error fs H). by apply list_elem_of_In.
  - induction 1 as [|f rest Hf _ IH]; [done|]. cbn. by rewrite Hf, IH.
Qed.

Lemma Struct_returns fs :
  Forall (λ f, ∃ errs, validate_field f = Errors errs) fs →
  ∃ errs, validator.Struct fs = Errors errs.
Proof.
  induction 1 as [|f rest [e1 Hf] _ [e2 IH]]; [by eexists|].
  cbn. rewrite Hf, IH. by eexists.
Qed.

Lemma bakedIn_required : bakedInValidators "required" = Some (λ v _, Some (hasValue v)).
Proof. reflexivity. Qed.

Lemma bakedIn_eq : bakedInValidators "eq" = Some isEq.
Proof. reflexivity. Qed.

Lemma bakedIn_gt : bakedInValidators "gt" = Some (compare_with Z.gtb).
Proof. reflexivity. Qed.

Lemma bakedIn_min : bakedInValidators "min" = Some (compare_with Z.geb).
Proof. reflexivity. Qed.

(** Evaluates [validate_field] on a field with a concrete tag, up to the
    comparisons on the value. *)
Ltac eval_field :=
  unfold validate_field; cbn [f_tag f_value f_name];
  repeat match goal with
    | |- context [parseFieldTags ?t] =>
        let r := eval vm_compute in (parseFieldTags t) in
        change (parseFieldTags t) with r
    end;
  repeat match goal with
    | |- context [defined ?c] => change (defined c) with true
    end;
  cbn [traverse run_alts];
  rewrite ?bakedIn_gte, ?bakedIn_lte, ?bakedIn_required, ?bakedIn_eq, ?bakedIn_gt,
    ?bakedIn_min;
  unfold compare_with, isEq, magnitude;
  cbn [mbind option_bind];
  repeat match goal with
    | |- context [strconv.ParseInt ?s] =>
        let r := eval vm_compute in (strconv.ParseInt s) in
        change (strconv.ParseInt s) with r
    end;
  cbn [mbind option_bind].

Lemma field_untagged name v : validate_field (mkField name "" v) = Errors [].
Proof. reflexivity. Qed.

Lemma field_gte_0 name v :
  validate_field (mkField name "gte=0" (VInt v))
  = if v >=? 0 then Errors [] else Errors [(name, "gte=0")].
Proof. eval_field. by destruct (v >=? 0). Qed.

Lemma field_gt_0 name v :
  validate_field (mkField name "gt=0" (VInt v))
  = if v >? 0 then Errors [] else Errors [(name, "gt=0")].
Proof. eval_field. by destruct (v >? 0). Qed.

Lemma field_omitempty_gte_1 name v :
  validate_field (mkField name "omitempty,gte=1" (VInt v))
  = if (v =? 0) || (v >=? 1) then Errors [] else Errors [(name, "gte=1")].
Proof.
  eval_field. unfold hasValue. destruct (v =? 0); [done|]. cbn. by destruct (v >=? 1).
Qed.

Lemma field_omitempty_gte_64 name s :
  validate_field (mkField name "omitempty,gte=64" (VString s))
  = if String.eqb s "" || (utf8.RuneCountInString s >=? 64)
    then Errors [] else Errors [(name, "gte=64")].
Proof.
  eval_field. unfold hasValue. destruct (String.eqb s ""); [done|]. cbn.
  by destruct (utf8.RuneCountInString s >=? 64).
Qed.

Lemma field_required name s :
  validate_field (mkField name "required" (VString s))
  = if String.eqb s "" then Errors [(name, "required")] else Errors [].
Proof. eval_field. unfold hasValue. by destruct (String.eqb s ""). Qed.

Lemma field_omitempty_required name s :
  validate_field (mkField name "omitempty,required" (VString s)) = Errors [].
Proof. eval_field. unfold hasValue. by destruct (String.eqb s ""). Qed.

Lemma field_min_1 name s :
  validate_field (mkField name "min=1" (VString s))
  = if utf8.RuneCountInString s >=? 1 then Errors [] else Errors [(name, "min=1")].
Proof. eval_field. by destruct (utf8.RuneCountInString s >=? 1). Qed.

Lemma field_master_or_slave name s :
  validate_field (mkField name "eq=master|eq=slave" (VString s))
  = if String.eqb s "master" || String.eqb s "slave"
    then Errors [] else Errors [(name, "eq=master|eq=slave")].
Proof.
  eval_field. destruct (String.eqb s "master"); [done|]. cbn.
  by destruct (String.eqb s "slave").
Qed.

Lemma field_range_0_3 name v :
  validate_field (mkField name "gte=0,lte=3" (VInt v))
  = if v >=? 0
    then (if v <=? 3 then Errors [] else Errors [(name, "lte=3")])
    else Errors [(name, "gte=0")].
Proof. eval_field. destruct (v >=? 0); [|done]. cbn. by destruct (v <=? 3). Qed.

Lemma field_range_0_2 name v :
  validate_field (mkField name "gte=0,lte=2" (VInt v))
  = if v >=? 0
    then (if v <=? 2 then Errors [] else Errors [(name, "lte=2")])
    else Errors [(name, "gte=0")].
Proof. eval_field. destruct (v >=? 0); [|done]. cbn. by destruct (v <=? 2). Qed.

Lemma count_from_nonneg s : ∀ skip, 0 ≤ utf8.count_from skip s.
Proof.
  induction s as [|c s IH]; intros skip; [done|].
  cbn [utf8.count_from]. destruct skip; [|apply IH].
  specialize (IH (utf8.rune_width c s - 1)%nat). lia.
Qed.

(** A string has at least one rune exactly when it is not empty. *)
Lemma RuneCount_ge_1 s : (utf8.RuneCountInString s >=? 1) = negb (String.eqb s "").
Proof.
  destruct s as [|c s]; [done|].
  unfold utf8.RuneCountInString. cbn [utf8.count_from String.eqb negb].
  pose proof (count_from_nonneg s (utf8.rune_width c s - 1)%nat).
  apply Z.geb_le. lia.
Qed.

(** Closes the goals of the shape "this field passes or fails, it does not
    panic". *)
Ltac field_returns :=
  first
    [ rewrite field_untagged | rewrite field_gte_0 | rewrite field_gt_0
    | rewrite field_omitempty_gte_1 | rewrite field_omitempty_gte_64
    | rewrite field_required | rewrite field_omitempty_required
    | rewrite field_min_1 | rewrite field_master_or_slave
    | rewrite field_range_0_3 | rewrite field_range_0_2 ];
  repeat match goal with |- context [if ?b then _ else _] => destruct b end;
  by eexists.

(** Validating a record of the package returns, whatever its values. *)
Lemma Struct_fields_returns id (r : struct_of id) :
  ∃ errs, validator.Struct (fields_of id r) = Errors errs.
Proof.
  apply Struct_returns.
  destruct id; cbn [fields_of]; unfold fields;
    repeat (constructor; [field_returns|]); constructor.
Qed.

(** X6.  No [validate] tag of the package is malformed or applied to a
    kind its validation does not handle: whatever values a record holds,
    validating it returns (with or without failures) and never panics; so
    [mapSection] panics only when no document has been loaded. *)
Theorem validator_never_panics :
  (∀ id (r : struct_of id), validator.Struct (fields_of id r) ≠ Panicked)
  ∧ (∀ env id w p w',
       mapSection env id w = Panic p w' →
       p = PanicNilDereference ∧ cfg w = None ∧ w' = w).
Proof.
  split.
  - intros id r. by destruct (Struct_fields_returns id r) as [errs ->].
  - intros env id w p w'. unfold mapSection, bind, gets, panic.
    destruct (cfg w) as [f|]; [|by intros [= <- <-]].
    destruct (ini_MapTo env id _ _) as [v [e|]]; [discriminate|]. cbn.
    destruct (Struct_fields_returns id v) as [errs ->]. by destruct errs.
Qed.

Lemma validator_never_panics_witness :
  mapSection Sample.env SecSystem (Sample.world ["UNSET"] None)
  = Panic PanicNilDereference (Sample.world ["UNSET"] None)
  ∧ cfg (Sample.world ["UNSET"] None) = None.
Proof.
  assert (mapSection Sample.env SecSystem (Sample.world ["UNSET"] None)
          = Panic PanicNilDereference (Sample.world ["UNSET"] None)) as Hrun
    by reflexivity.
  split; [exact Hrun|].
  exact (proj1 (proj2 (proj2 validator_never_panics Sample.env SecSystem
                         (Sample.world ["UNSET"] None) PanicNilDereference
                         (Sample.world ["UNSET"] None) Hrun))).
Defined.

Lemma passes_iff (b : bool) e :
  (if b then Errors [] else Errors [e]) = Errors [] ↔ b = true.
Proof. by destruct b. Qed.

Lemma passes_range_iff (a b : bool) e1 e2 :
  (if a then (if b then Errors [] else Errors [e1]) else Errors [e2]) = Errors []
  ↔ a = true ∧ b = true.
Proof. destruct a, b; intuition congruence. Qed.

(** X7.  The System record passes validation exactly when its mode is
    [master] or [slave], in this spelling, and its listen address is not
    empty; the other fields are free. *)
Theorem system_valid_iff (c : system) :
  validator.Struct (fields c) = Errors []
  ↔ (system_Mode c = "master" ∨ system_Mode c = "slave") ∧ system_Listen c ≠ "".
Proof.
  rewrite Struct_ok_iff. unfold fields, system_fields.
  rewrite !Forall_cons, Forall_nil, !field_untagged, field_master_or_slave, field_required.
  destruct (String.eqb_spec (system_Mode c) "master"),
           (String.eqb_spec (system_Mode c) "slave"),
           (String.eqb_spec (system_Listen c) ""); cbn; intuition congruence.
Qed.

(** X8.  The SSL record passes validation exactly when its listen address
    is not empty: the tags of the certificate and key paths
    ([omitempty,required]) reject nothing. *)
Theorem ssl_valid_iff (c : ssl) :
  validator.Struct (fields c) = Errors [] ↔ ssl_Listen c ≠ "".
Proof.
  rewrite Struct_ok_iff. unfold fields, ssl_fields.
  rewrite !Forall_cons, Forall_nil, !field_omitempty_required, field_required.
  destruct (String.eqb_spec (ssl_Listen c) ""); intuition congruence.
Qed.

(** X9.  The Slave record passes validation exactly when the secret is
    empty or has at least 64 runes and neither timeout is negative: zero
    is let through by [omitempty] although the tag asks for at least 1. *)
Theorem slave_valid_iff (c : slave) :
  validator.Struct (fields c) = Errors []
  ↔ (slave_Secret c = "" ∨ 64 ≤ utf8.RuneCountInString (slave_Secret c))
    ∧ 0 ≤ slave_CallbackTimeout c ∧ 0 ≤ slave_SignatureTTL c.
Proof.
  rewrite Struct_ok_iff. unfold fields, slave_fields.
  rewrite !Forall_cons, Forall_nil, field_omitempty_gte_64, !field_omitempty_gte_1.
  rewrite !passes_iff, !orb_true_iff, !Z.geb_le, !Z.eqb_eq.
  destruct (String.eqb_spec (slave_Secret c) ""); intuition (congruence || lia).
Qed.

(** X10.  The Captcha record passes validation exactly when height and
    width are not negative, the mode is between 0 and 3, both noise
    complexities are between 0 and 2, and the length is positive. *)
Theorem captcha_valid_iff (c : captcha) :
  validator.Struct (fields c) = Errors []
  ↔ 0 ≤ captcha_Height c ∧ 0 ≤ captcha_Width c
    ∧ 0 ≤ captcha_Mode c ≤ 3
    ∧ 0 ≤ captcha_ComplexOfNoiseText c ≤ 2
    ∧ 0 ≤ captcha_ComplexOfNoiseDot c ≤ 2
    ∧ 0 < captcha_CaptchaLen c.
Proof.
  rewrite Struct_ok_iff. unfold fields, captcha_fields.
  rewrite !Forall_cons, Forall_nil, !field_untagged, !field_gte_0, field_gt_0,
    field_range_0_3, !field_range_0_2.
  rewrite !passes_range_iff, !passes_iff, !Z.geb_le, !Z.leb_le, Z.gtb_gt.
  intuition lia.
Qed.

(** X11.  The Thumbnail record passes validation exactly when the file
    suffix is not empty; the Database, UnixSocket, Redis, CORS and RClone
    records have no tag and always pass, an RClone record with an empty
    bind list included. *)
Theorem thumb_and_untagged_valid :
  (∀ c : thumb, validator.Struct (fields c) = Errors [] ↔ thumb_FileSuffix c ≠ "")
  ∧ (∀ c : database, validator.Struct (fields c) = Errors [])
  ∧ (∀ c : unix, validator.Struct (fields c) = Errors [])
  ∧ (∀ c : redis, validator.Struct (fields c) = Errors [])
  ∧ (∀ c : cors, validator.Struct (fields c) = Errors [])
  ∧ (∀ c : rclone, validator.Struct (fields c) = Errors []).
Proof.
  split.
  - intros c. rewrite Struct_ok_iff. unfold fields, thumb_fields.
    rewrite !Forall_cons, Forall_nil, !field_untagged, field_min_1, RuneCount_ge_1.
    destruct (String.eqb_spec (thumb_FileSuffix c) ""); cbn; intuition congruence.
  - repeat split; intros c; reflexivity.
Qed.

(** ** What the steps of [Init] leave alone *)

(** The step relates the state it starts from to the state it ends in,
    whether it returns or panics. *)
Definition respects (R : World → World → Prop) {A} (m : M A) : Prop :=
  ∀ w, R w (final_world (m w)).

Section Respects.

Context (R : World → World → Prop) `{!Reflexive R} `{!Transitive R}.

Lemma respects_ret {A} (a : A) : respects R (ret a).
Proof. intros w. reflexivity. Qed.

Lemma respects_gets {A} (f : World → A) : respects R (gets f).
Proof. intros w. reflexivity. Qed.

Lemma respects_panic {A} p : respects R (panic (A := A) p).
Proof. intros w. reflexivity. Qed.

Lemma respects_modify g : (∀ w, R w (g w)) → respects R (modify g).
Proof. intros H w. apply H. Qed.

Lemma respects_bind {A B} (m : M A) (k : A → M B) :
  respects R m → (∀ a, respects R (k a)) → respects R (bind m k).
Proof.
  intros Hm Hk w. rewrite bind_run. specialize (Hm w).
  destruct (m w) as [a w1|p w1]; cbn [final_world] in *; [|done].
  etrans; [exact Hm | apply Hk].
Qed.

End Respects.

(** Walks through a step made of [bind], [ret], [gets], [modify], [panic]
    and case distinctions, leaving the state changes to [tac]. *)
Ltac walk R tac :=
  repeat match goal with
    | |- respects _ (ret _) => apply (respects_ret R)
    | |- respects _ (gets _) => apply (respects_gets R)
    | |- respects _ (panic _) => apply (respects_panic R)
    | |- respects _ (modify _) => apply (respects_modify R); intros ?; tac
    | |- respects _ (bind _ _) => apply (respects_bind R); [| intros ?]
    | |- respects _ (match ?x with _ => _ end) => destruct x
    end.

(** The verbosity is kept, and a logger that exists is kept. *)
Definition same_logger (w w' : World) : Prop :=
  util_Level w' = util_Level w
  ∧ (is_Some (util_GloablLogger w) → util_GloablLogger w' = util_GloablLogger w).

#[export] Instance same_logger_refl : Reflexive same_logger.
Proof. by intros w. Qed.

#[export] Instance same_logger_trans : Transitive same_logger.
Proof.
  intros w1 w2 w3 [H1 H1'] [H2 H2']. split; [congruence|].
  intros Hs. rewrite H2', H1'; try done. by rewrite H1'.
Qed.

(** The file system aside, what the bind step may change is kept. *)
Definition same_binding (w w' : World) : Prop :=
  util_OS w' = util_OS w ∧ rclone_ConfigPath w' = rclone_ConfigPath w
  ∧ util_Level w' = util_Level w.

#[export] Instance same_binding_refl : Reflexive same_binding.
Proof. by intros w. Qed.

#[export] Instance same_binding_trans : Transitive same_binding.
Proof. intros w1 w2 w3 (? & ? & ?) (? & ? & ?). repeat split; congruence. Qed.

Definition same_cfg (w w' : World) : Prop := cfg w' = cfg w.

#[export] Instance same_cfg_refl : Reflexive same_cfg.
Proof. by intros w. Qed.

#[export] Instance same_cfg_trans : Transitive same_cfg.
Proof. intros w1 w2 w3. unfold same_cfg. congruence. Qed.

Ltac logger_step :=
  unfold same_logger, same_binding, same_cfg; cbn;
  try match goal with
    | |- context [util_GloablLogger ?w] => destruct (util_GloablLogger w) eqn:?
    end;
  cbn; repeat split; intros; try done; try (by destruct_and?; destruct_or?).

Section StepsRespect.

Context (env : Env).

Lemma initRCloneBind_same_logger : respects same_logger (initRCloneBind env).
Proof.
  assert (∀ binds bp, respects same_logger (bind_loop env binds bp)) as Hloop.
  { induction binds as [|kv rest IH]; intros bp; cbn [bind_loop]; [apply (respects_ret same_logger)|].
    apply (respects_bind same_logger); [|].
    - unfold bind_entry, Log_Info, Log_Warning, util_Log, rclonefs_NewRCloneFs.
      walk same_logger logger_step.
    - intros [bp'|]; [apply IH | apply (respects_ret same_logger)]. }
  unfold initRCloneBind, Log_Warning, util_Log, util_Exists, rclonefs_SetConfigPath.
  destruct (negb _); [walk same_logger logger_step|].
  apply (respects_bind same_logger); [apply (respects_gets same_logger) | intros rc].
  destruct (rclone_Binds rc) as [|first rest]; [apply (respects_panic same_logger)|].
  destruct (String.eqb first "UNSET"); [apply (respects_ret same_logger)|].
  apply (respects_bind same_logger); [apply (respects_gets same_logger) | intros [|]];
    [|walk same_logger logger_step].
  apply (respects_bind same_logger); [walk same_logger logger_step | intros _].
  apply (respects_bind same_logger); [apply Hloop | intros r].
  walk same_logger logger_step.
Qed.

Lemma materialize_same_binding path : respects same_binding (materialize env path).
Proof.
  unfold materialize, util_Exists, util_RandStringRunes, util_CreatNestedFile,
    WriteString, Close, Log_Panic, util_Log.
  apply (respects_bind same_binding); [apply (respects_gets same_binding) | intros ex].
  destruct (_ || _); [|apply (respects_ret same_binding)].
  apply (respects_bind same_binding); [by intros w | intros s1].
  apply (respects_bind same_binding); [by intros w | intros s2].
  cbv zeta. walk same_binding logger_step.
Qed.

Lemma load_same_binding path : respects same_binding (load env path).
Proof. unfold load, ini_Load, Log_Panic, util_Log. walk same_binding logger_step. Qed.

Lemma mapSection_same_binding id : respects same_binding (mapSection env id).
Proof. unfold mapSection. walk same_binding logger_step. Qed.

Lemma map_sections_same_binding ids : respects same_binding (map_sections env ids).
Proof.
  induction ids as [|id rest IH]; cbn [map_sections]; [apply (respects_ret same_binding)|].
  apply (respects_bind same_binding); [apply mapSection_same_binding | intros [e|]];
    [|exact IH].
  unfold Log_Panic, util_Log. walk same_binding logger_step.
Qed.

Lemma mapSection_same_cfg id : respects same_cfg (mapSection env id).
Proof. unfold mapSection. walk same_cfg logger_step. Qed.

Lemma map_sections_same_cfg ids : respects same_cfg (map_sections env ids).
Proof.
  induction ids as [|id rest IH]; cbn [map_sections]; [apply (respects_ret same_cfg)|].
  apply (respects_bind same_cfg); [apply mapSection_same_cfg | intros [e|]];
    [|exact IH].
  unfold Log_Panic, util_Log. walk same_cfg logger_step.
Qed.

Lemma reset_log_level_same_cfg : respects same_cfg reset_log_level.
Proof. unfold reset_log_level, util_Log. walk same_cfg logger_step. Qed.

End StepsRespect.

(** ** [Init] from end to end *)

Section InitRuns.

Context (env : Env).

(** A returning [Init] is a returning run of each of its steps. *)
Lemma Init_Returned_phases path w w' :
  Init env path w = Returned tt w' →
  ∃ w1 w2 w3 w4,
    materialize env path w = Returned tt w1
    ∧ load env path w1 = Returned tt w2
    ∧ map_sections env (sections_order env) w2 = Returned tt w3
    ∧ reset_log_level w3 = Returned tt w4
    ∧ initRCloneBind env w4 = Returned tt w'.
Proof.
  unfold Init. intros Hrun.
  apply bind_Returned in Hrun as ([] & w1 & H1 & Hrun).
  apply bind_Returned in Hrun as ([] & w2 & H2 & Hrun).
  apply bind_Returned in Hrun as ([] & w3 & H3 & Hrun).
  apply bind_Returned in Hrun as ([] & w4 & H4 & Hrun).
  by exists w1, w2, w3, w4.
Qed.

(** What [reset_log_level] does, by the value of the debug flag. *)
Lemma reset_log_level_run w :
  reset_log_level w
  = Returned tt (if system_Debug (SystemConfig (conf w)) then w
                 else set_GloablLogger (Some LevelInformational)
                        (set_GloablLogger None (set_Level LevelInformational w))).
Proof.
  unfold reset_log_level, bind, gets, modify, util_Log.
  by destruct (system_Debug (SystemConfig (conf w))).
Qed.

Lemma initRCloneBind_Panic w p w' :
  initRCloneBind env w = Panic p w' →
  p = PanicIndexOutOfRange 0 0 ∧ GOOS env = "linux" ∧ binds_of w = [] ∧ w' = w.
Proof.
  destruct (decide (GOOS env = "linux")) as [Hos|Hos];
    [|by rewrite (initRCloneBind_other_os env w Hos)].
  destruct (binds_of w) as [|first rest] eqn:Hb.
  { rewrite (initRCloneBind_empty env w Hos Hb). by intros [= <- <-]. }
  destruct (decide (first = "UNSET")) as [->|Hf];
    [by rewrite (initRCloneBind_unset env w rest Hos Hb)|].
  destruct (nodes w !! config_of w) as [nd|] eqn:Hcfg;
    [|by rewrite (initRCloneBind_no_config env w first rest Hos Hb Hf Hcfg)].
  destruct (initRCloneBind_run env w first rest Hos Hb Hf) as (w1 & -> & _); [|done].
  rewrite Hcfg. by eexists.
Qed.

End InitRuns.

(** X12.  When [Init] returns, the rest of the program can rely on: a
    loaded document; a System mode that is [master] or [slave]; non-empty
    listen addresses for System and SSL; a non-empty thumbnail suffix; a
    positive captcha length; timeouts of the Slave record that are not
    negative; and, on Linux, a bind list that is not empty. *)
Theorem Init_postconditions env path w w' :
  Permutation (sections_order env) all_sections →
  Init env path w = Returned tt w' →
  is_Some (cfg w')
  ∧ (system_Mode (SystemConfig (conf w')) = "master"
     ∨ system_Mode (SystemConfig (conf w')) = "slave")
  ∧ system_Listen (SystemConfig (conf w')) ≠ ""
  ∧ ssl_Listen (SSLConfig (conf w')) ≠ ""
  ∧ thumb_FileSuffix (ThumbConfig (conf w')) ≠ ""
  ∧ 0 < captcha_CaptchaLen (CaptchaConfig (conf w'))
  ∧ 0 ≤ slave_CallbackTimeout (SlaveConfig (conf w'))
  ∧ 0 ≤ slave_SignatureTTL (SlaveConfig (conf w'))
  ∧ (GOOS env = "linux" → binds_of w' ≠ []).
Proof.
  intros Hperm Hrun.
  assert (∀ id f, In f (fields_of id (get_conf id (conf w'))) →
            validate_field f = Errors []) as Hok.
  { intros id f. apply Struct_no_error. apply (Init_valid env path w w' Hrun).
    eapply Permutation_in; [symmetry; exact Hperm | apply all_sections_complete]. }
  destruct (Init_Returned_phases env path w w' Hrun)
    as (w1 & w2 & w3 & w4 & H1 & H2 & H3 & H4 & H5).
  split; [|split; [|split; [|split; [|split; [|split; [|split; [|split]]]]]]].
  - destruct (initRCloneBind_same_store env w4) as (_ & _ & _ & _ & Hc & _).
    rewrite H5 in Hc. cbn in Hc. rewrite Hc.
    pose proof (reset_log_level_same_cfg w3) as Hr. rewrite H4 in Hr.
    cbn in Hr. rewrite Hr.
    pose proof (map_sections_same_cfg env (sections_order env) w2) as Hm.
    rewrite H3 in Hm. cbn in Hm. rewrite Hm.
    revert H2. unfold load, ini_Load, bind, gets, ret, modify.
    destruct (nodes w1 !! path) as [[|content]|]; try discriminate.
    destruct (ini_parse env content); [discriminate|]. intros [= <-]. by eexists.
  - pose proof (Hok SecSystem (mkField "Mode" "eq=master|eq=slave"
                                 (VString (system_Mode (SystemConfig (conf w')))))) as H.
    rewrite field_master_or_slave in H.
    destruct (String.eqb_spec (system_Mode (SystemConfig (conf w'))) "master"); [by left|].
    destruct (String.eqb_spec (system_Mode (SystemConfig (conf w'))) "slave"); [by right|].
    cbn in H. discriminate H. cbn. tauto.
  - pose proof (Hok SecSystem (mkField "Listen" "required"
                                 (VString (system_Listen (SystemConfig (conf w')))))) as H.
    rewrite field_required in H.
    destruct (String.eqb_spec (system_Listen (SystemConfig (conf w'))) ""); [|done].
    discriminate H. cbn. tauto.
  - pose proof (Hok SecSSL (mkField "Listen" "required"
                              (VString (ssl_Listen (SSLConfig (conf w')))))) as H.
    rewrite field_required in H.
    destruct (String.eqb_spec (ssl_Listen (SSLConfig (conf w'))) ""); [|done].
    discriminate H. cbn. tauto.
  - pose proof (Hok SecThumbnail (mkField "FileSuffix" "min=1"
                                    (VString (thumb_FileSuffix (ThumbConfig (conf w')))))) as H.
    rewrite field_min_1, RuneCount_ge_1 in H.
    destruct (String.eqb_spec (thumb_FileSuffix (ThumbConfig (conf w'))) ""); [|done].
    discriminate H. cbn. tauto.
  - pose proof (Hok SecCaptcha (mkField "CaptchaLen" "gt=0"
                                  (VInt (captcha_CaptchaLen (CaptchaConfig (conf w')))))) as H.
    rewrite field_gt_0 in H.
    destruct (Z.gtb_spec (captcha_CaptchaLen (CaptchaConfig (conf w'))) 0); [lia|].
    discriminate H. cbn. tauto.
  - pose proof (Hok SecSlave (mkField "CallbackTimeout" "omitempty,gte=1"
                                (VInt (slave_CallbackTimeout (SlaveConfig (conf w')))))) as H.
    rewrite field_omitempty_gte_1 in H.
    destruct (Z.eqb_spec (slave_CallbackTimeout (SlaveConfig (conf w'))) 0); [lia|].
    destruct (Z.geb_spec (slave_CallbackTimeout (SlaveConfig (conf w'))) 1); [lia|].
    discriminate H. cbn. tauto.
  - pose proof (Hok SecSlave (mkField "SignatureTTL" "omitempty,gte=1"
                                (VInt (slave_SignatureTTL (SlaveConfig (conf w')))))) as H.
    rewrite field_omitempty_gte_1 in H.
    destruct (Z.eqb_spec (slave_SignatureTTL (SlaveConfig (conf w'))) 0); [lia|].
    destruct (Z.geb_spec (slave_SignatureTTL (SlaveConfig (conf w'))) 1); [lia|].
    discriminate H. cbn. tauto.
  - intros Hos Hb.
    destruct (initRCloneBind_same_store env w4) as (_ & _ & _ & _ & _ & Hc).
    rewrite H5 in Hc. cbn in Hc.
    assert (binds_of w4 = []) as Hb4 by (unfold binds_of in *; by rewrite <- Hc).
    rewrite (initRCloneBind_empty env w4 Hos Hb4) in H5. discriminate H5.
Qed.

Lemma Init_postconditions_witness :
  let w' := final_world (Init Sample.env Sample.conf_path (Sample.world ["UNSET"] None)) in
  is_Some (cfg w') ∧ binds_of w' ≠ [].
Proof.
  intros w'.
  pose proof (Init_postconditions Sample.env Sample.conf_path
                (Sample.world ["UNSET"] None) w') as H.
  destruct H as (Hcfg & _ & _ & _ & _ & _ & _ & _ & Hb).
  - reflexivity.
  - vm_compute. reflexivity.
  - split; [exact Hcfg | exact (Hb eq_refl)].
Defined.

(** X13.  When [Init] returns with the debug flag of the System record (as
    just mapped) off, the verbosity is "informational" and the logger has
    been rebuilt with it; with the flag on, the verbosity is the one
    [Init] started with. *)
Theorem Init_log_level env path w w' :
  Init env path w = Returned tt w' →
  (system_Debug (SystemConfig (conf w')) = false →
     util_Level w' = LevelInformational
     ∧ util_GloablLogger w' = Some LevelInformational)
  ∧ (system_Debug (SystemConfig (conf w')) = true → util_Level w' = util_Level w).
Proof.
  intros Hrun.
  destruct (Init_Returned_phases env path w w' Hrun)
    as (w1 & w2 & w3 & w4 & H1 & H2 & H3 & H4 & H5).
  pose proof (materialize_same_binding env path w) as (_ & _ & L1). rewrite H1 in L1.
  pose proof (load_same_binding env path w1) as (_ & _ & L2). rewrite H2 in L2.
  pose proof (map_sections_same_binding env (sections_order env) w2) as (_ & _ & L3).
  rewrite H3 in L3. cbn in L1, L2, L3.
  pose proof (initRCloneBind_same_logger env w4) as [L5 G5]. rewrite H5 in L5, G5.
  cbn in L5, G5.
  destruct (initRCloneBind_same_store env w4) as (_ & _ & _ & _ & _ & Hc).
  rewrite H5 in Hc. cbn in Hc.
  rewrite reset_log_level_run in H4. injection H4 as <-.
  rewrite Hc.
  destruct (system_Debug (SystemConfig (conf w3))) eqn:Hd.
  - rewrite Hd. split; [discriminate|]. intros _. congruence.
  - cbn. rewrite Hd. split; [|discriminate]. intros _. cbn in L5, G5.
    split; [exact L5|]. apply G5. by eexists.
Qed.

Lemma Init_log_level_witness :
  let w' := final_world (Init Sample.env Sample.conf_path (Sample.world ["UNSET"] None)) in
  util_Level w' = LevelInformational ∧ util_GloablLogger w' = Some LevelInformational.
Proof.
  intros w'.
  pose proof (Init_log_level Sample.env Sample.conf_path
                (Sample.world ["UNSET"] None) w') as H.
  destruct H as (Hoff & _).
  - vm_compute. reflexivity.
  - apply Hoff. vm_compute. reflexivity.
Defined.

Section InitEnds.

Context (env : Env).

(** How [materialize] can end. *)
Lemma materialize_cases path w :
  materialize env path w = Returned tt w
  ∨ (∃ w1, materialize env path w = Returned tt w1
       ∧ (path = "" ∨ nodes w !! path = None)
       ∧ create_fault env path = None ∧ write_fault env path = None)
  ∨ (∃ err w1, materialize env path w = Panic (PanicLog (MsgCreateFailed err)) w1
       ∧ create_fault env path = Some err)
  ∨ (∃ n err w1, materialize env path w = Panic (PanicLog (MsgWriteFailed err)) w1
       ∧ write_fault env path = Some (n, err)).
Proof.
  assert (path = "" ∨ nodes w !! path = None ∨ (path ≠ "" ∧ is_Some (nodes w !! path)))
    as [Hc|[Hc|[Hne Hex]]].
  { destruct (decide (path = "")); [by left|]. destruct (nodes w !! path) eqn:E; eauto. }
  3: { left. by apply materialize_existing. }
  all: assert (path = "" ∨ nodes w !! path = None) as Hc' by tauto;
    destruct (create_fault env path) as [err|] eqn:Hf;
    [ destruct (materialize_create_fails env path w err Hc' Hf) as (w1 & Hrun & _);
      right; right; left; by exists err, w1
    | destruct (write_fault env path) as [[n err]|] eqn:Hw;
      [ destruct (materialize_write_fails env path w n err Hc' Hf Hw) as (w1 & Hrun & _);
        right; right; right; by exists n, err, w1
      | destruct (materialize_creates env path w Hc' Hf Hw) as (w1 & Hrun & _);
        right; left; by exists w1 ] ].
Qed.

(** How [load] ends, by what is at the path. *)
Lemma load_run path w :
  load env path w
  = match nodes w !! path with
    | Some (File content) =>
        match ini_parse env content with
        | inr f => Returned tt (set_cfg (Some f) w)
        | inl err =>
            Panic (PanicLog (MsgParseFailed path err))
                  (emit (EvLog SevPanic (MsgParseFailed path err))
                        (touch_logger (set_cfg None w)))
        end
    | _ =>
        Panic (PanicLog (MsgParseFailed path (ErrOS "open: no such file")))
              (emit (EvLog SevPanic (MsgParseFailed path (ErrOS "open: no such file")))
                    (touch_logger (set_cfg None w)))
    end.
Proof.
  unfold load, ini_Load, bind, gets, ret.
  destruct (nodes w !! path) as [[|content]|]; try reflexivity.
  by destruct (ini_parse env content).
Qed.

Lemma map_sections_Panic ids : ∀ w p w',
  is_Some (cfg w) →
  map_sections env ids w = Panic p w' →
  ∃ id err, In id ids ∧ p = PanicLog (MsgSectionFailed (section_name id) err).
Proof.
  induction ids as [|id rest IH]; intros w p w' Hcfg; [discriminate|].
  cbn [map_sections]. rewrite bind_run.
  destruct (mapSection env id w) as [r w1|p1 w1] eqn:E.
  - destruct r as [e|].
    + rewrite Log_Panic_eq. intros [= <- _]. exists id, e. split; [by left | done].
    + intros Hrest. pose proof (mapSection_same_cfg env id w) as Hc.
      rewrite E in Hc. cbn in Hc. unfold same_cfg in Hc.
      destruct (IH w1 p w') as (id' & err & Hin & ->); [by rewrite Hc | done |].
      exists id', err. split; [by right | done].
  - exfalso. revert E. unfold mapSection, bind, gets, panic.
    destruct Hcfg as [f ->].
    destruct (ini_MapTo env id _ _) as [v [e|]]; [discriminate|]. cbn.
    destruct (Struct_fields_returns id v) as [errs ->]. by destruct errs.
Qed.

End InitEnds.

(** X14.  [Init] has exactly five fatal exits: the file cannot be created,
    the default content cannot be written, the file cannot be parsed, a
    section cannot be mapped or fails validation (the panic names a
    section of the table), and, on Linux, the bind list is empty.  It
    never ends in a nil dereference or in a panic of the validator.  On
    every fatal exit but the last the bind step has not run: [util.OS],
    the path registered with the remote driver and the verbosity are as
    before. *)
Theorem Init_fatal_exits env path w p w' :
  Init env path w = Panic p w' →
  ((∃ err, p = PanicLog (MsgCreateFailed err) ∧ create_fault env path = Some err)
   ∨ (∃ n err, p = PanicLog (MsgWriteFailed err) ∧ write_fault env path = Some (n, err))
   ∨ (∃ err, p = PanicLog (MsgParseFailed path err))
   ∨ (∃ id err, In id (sections_order env)
        ∧ p = PanicLog (MsgSectionFailed (section_name id) err))
   ∨ (p = PanicIndexOutOfRange 0 0 ∧ GOOS env = "linux" ∧ binds_of w' = []))
  ∧ (p ≠ PanicIndexOutOfRange 0 0 →
     util_OS w' = util_OS w ∧ rclone_ConfigPath w' = rclone_ConfigPath w
     ∧ util_Level w' = util_Level w).
Proof.
  unfold Init. rewrite bind_run.
  pose proof (materialize_same_binding env path w) as B1.
  destruct (materialize env path w) as [[] w1|p1 w1] eqn:E1; cbn [final_world] in B1.
  2: { intros [= <- <-]. split; [|intros _; exact B1].
       destruct (materialize_cases env path w)
         as [H|[(? & H & _)|[(err & ? & H & Hf)|(n & err & ? & H & Hw)]]];
         rewrite E1 in H; simplify_eq; eauto 10. }
  rewrite bind_run.
  pose proof (load_same_binding env path w1) as B2.
  pose proof (load_run env path w1) as L.
  destruct (load env path w1) as [[] w2|p2 w2] eqn:E2; cbn [final_world] in B2.
  2: { intros [= <- <-]. split; [|intros _; change (same_binding w w2); by etrans].
       right. right. left.
       destruct (nodes w1 !! path) as [[|content]|];
         [| destruct (ini_parse env content) |]; simplify_eq; eauto. }
  assert (is_Some (cfg w2)) as Hcfg.
  { destruct (nodes w1 !! path) as [[|content]|]; try discriminate L.
    destruct (ini_parse env content); [discriminate L|]. injection L as ->. by eexists. }
  rewrite bind_run.
  pose proof (map_sections_same_binding env (sections_order env) w2) as B3.
  destruct (map_sections env (sections_order env) w2) as [[] w3|p3 w3] eqn:E3;
    cbn [final_world] in B3.
  2: { intros [= <- <-].
       split; [|intros _; change (same_binding w w3); by do 2 (etrans; [eassumption|])].
       destruct (map_sections_Panic env _ w2 p3 w3 Hcfg E3) as (id & err & Hin & ->).
       right. right. right. left. eauto. }
  rewrite bind_run, reset_log_level_run.
  intros Hbind. apply initRCloneBind_Panic in Hbind as (-> & Hos & Hb & ->).
  split; [|done]. do 4 right. done.
Qed.

Lemma Init_fatal_exits_witness :
  let w := Sample.world ["UNSET"] None in
  let o := Init Sample.env_disk_full Sample.conf_path w in
  util_OS (final_world o) = util_OS w ∧ util_Level (final_world o) = util_Level w.
Proof.
  intros w o.
  destruct (Init_fatal_exits Sample.env_disk_full Sample.conf_path w
              (PanicLog (MsgWriteFailed (ErrOS "no space left on device")))
              (final_world o)) as (_ & Hframe).
  - vm_compute. reflexivity.
  - destruct Hframe as (Hos & _ & Hl); [discriminate|]. by split.
Defined.

Section InitLoads.

Context (env : Env).

(** The steps after [load] keep the loaded document. *)
Lemma after_load_same_cfg w :
  cfg (final_world ((map_sections env (sections_order env) ;;;
                     reset_log_level ;;; initRCloneBind env) w)) = cfg w.
Proof.
  assert (respects same_cfg (initRCloneBind env)) as Hb.
  { intros w0. by destruct (initRCloneBind_same_store env w0) as (_ & _ & _ & _ & ? & _). }
  apply (respects_bind same_cfg); [apply map_sections_same_cfg | intros _].
  apply (respects_bind same_cfg); [apply reset_log_level_same_cfg | intros _; exact Hb].
Qed.

(** [Init] after the file is in place, by what the parser says. *)
Lemma configure_parses path w content :
  nodes w !! path = Some (File content) →
  match ini_parse env content with
  | inr f => cfg (final_world (configure env path w)) = Some f
  | inl err =>
      configure env path w
      = Panic (PanicLog (MsgParseFailed path err))
              (emit (EvLog SevPanic (MsgParseFailed path err))
                    (touch_logger (set_cfg None w)))
  end.
Proof.
  intros Hn. unfold configure. rewrite bind_run, load_run, Hn.
  destruct (ini_parse env content) as [err|f]; [done|].
  by rewrite after_load_same_cfg.
Qed.

(** The write fails: the file that was created stays, with the bytes
    written before the fault. *)
Lemma materialize_write_fails_file path w n err :
  path = "" ∨ nodes w !! path = None →
  create_fault env path = None →
  write_fault env path = Some (n, err) →
  ∃ w', materialize env path w = Panic (PanicLog (MsgWriteFailed err)) w'
    ∧ nodes w' !! path = Some (File (strings.take n (confContent_of env w))).
Proof.
  intros Hc Hf Hw. unfold materialize, bind, util_Exists, gets.
  rewrite (materialize_condition path w Hc).
  unfold util_RandStringRunes, util_CreatNestedFile. rewrite Hf.
  unfold bind, gets, modify, ret, WriteString, bind, gets, modify, ret.
  cbn -[rand_letters util_Replace in_range_order filepath.Dir MkdirAll strings.take].
  rewrite lookup_insert_eq, Hw.
  unfold Log_Panic, util_Log, bind, modify, panic.
  destruct (util_GloablLogger w) eqn:E;
    repeat (cbn -[rand_letters util_Replace in_range_order filepath.Dir MkdirAll
                  strings.take];
            rewrite ?E);
    (eexists; split; [reflexivity|]);
    cbn -[rand_letters util_Replace in_range_order filepath.Dir MkdirAll strings.take];
    by rewrite lookup_alter_eq, lookup_insert_eq.
Qed.

Lemma confContent_filled w :
  confContent_of env w
  = filled_conf (rand_letters env (rand_pos w) 64) (rand_letters env (rand_pos w + 64) 64).
Proof. apply Replace_defaultConf; apply rand_letters_alnum. Qed.

End InitLoads.

(** X15.  With something at a non-empty path, [Init] creates nothing and
    loads what is there.  A file that parses becomes the loaded document,
    whatever happens afterwards; a file that does not parse is fatal, with
    no record mapped and the file system untouched; a directory is fatal
    in the same way. *)
Theorem existing_path_is_loaded env path w nd :
  path ≠ "" → nodes w !! path = Some nd →
  match nd with
  | File content =>
      match ini_parse env content with
      | inr f => cfg (final_world (Init env path w)) = Some f
      | inl err =>
          ∃ w', Init env path w = Panic (PanicLog (MsgParseFailed path err)) w'
            ∧ cfg w' = None ∧ conf w' = conf w ∧ nodes w' = nodes w
            ∧ new_events w w' = [EvLog SevPanic (MsgParseFailed path err)]
      end
  | Dir =>
      ∃ err w', Init env path w = Panic (PanicLog (MsgParseFailed path err)) w'
        ∧ cfg w' = None ∧ conf w' = conf w ∧ nodes w' = nodes w
  end.
Proof.
  intros Hne Hn.
  assert (materialize env path w = Returned tt w) as Hm
    by (apply materialize_existing; [done | rewrite Hn; by eexists]).
  rewrite Init_materialize_configure, bind_run, Hm.
  destruct (touch_logger_frame (set_cfg None w)) as (Tn & _ & Tc & _ & _ & Tt & _ & _ & Tg).
  destruct nd as [|content].
  - unfold configure. rewrite bind_run, load_run, Hn.
    eexists _, _. split; [reflexivity|]. cbn. by rewrite Tg, Tc, Tn.
  - pose proof (configure_parses env path w content Hn) as Hp.
    destruct (ini_parse env content) as [err|f]; [|exact Hp].
    rewrite Hp. eexists. split; [reflexivity|]. cbn. rewrite Tg, Tc, Tn.
    repeat split. apply new_events_app. cbn. by rewrite Tt.
Qed.

Lemma existing_path_is_loaded_witness :
  cfg (final_world (Init Sample.env Sample.conf_path
                      (Sample.world ["UNSET"] (Some "[System]")))) = Some [].
Proof.
  assert (Sample.conf_path ≠ "") as Hne by discriminate.
  assert (nodes (Sample.world ["UNSET"] (Some "[System]")) !! Sample.conf_path
          = Some (File "[System]")) as Hfile by (vm_compute; reflexivity).
  exact (existing_path_is_loaded Sample.env Sample.conf_path
           (Sample.world ["UNSET"] (Some "[System]")) (File "[System]") Hne Hfile).
Defined.

(** X16.  When [Init] creates the file, the document it parses is the
    default content it has just written: if the parser accepts it, it is
    the loaded document; if not, [Init] is fatal and the new file stays
    on disk with that content. *)
Theorem default_content_is_parsed env path w :
  path = "" ∨ nodes w !! path = None →
  create_fault env path = None →
  write_fault env path = None →
  match ini_parse env (filled_conf (rand_letters env (rand_pos w) 64)
                                   (rand_letters env (rand_pos w + 64) 64)) with
  | inr f => cfg (final_world (Init env path w)) = Some f
  | inl err =>
      ∃ w', Init env path w = Panic (PanicLog (MsgParseFailed path err)) w'
        ∧ nodes w' !! path
          = Some (File (filled_conf (rand_letters env (rand_pos w) 64)
                                    (rand_letters env (rand_pos w + 64) 64)))
  end.
Proof.
  intros Hc Hf Hw.
  destruct (materialize_creates env path w Hc Hf Hw) as (w1 & Hrun & Hn & _).
  assert (nodes w1 !! path
          = Some (File (filled_conf (rand_letters env (rand_pos w) 64)
                                    (rand_letters env (rand_pos w + 64) 64)))) as Hn1
    by (by rewrite Hn, lookup_insert_eq, confContent_filled).
  rewrite Init_materialize_configure, bind_run, Hrun.
  pose proof (configure_parses env path w1 _ Hn1) as Hp.
  destruct (ini_parse env _) as [err|f]; [|exact Hp].
  rewrite Hp. eexists. split; [reflexivity|]. cbn.
  destruct (touch_logger_frame (set_cfg None w1)) as (-> & _). exact Hn1.
Qed.

Lemma default_content_is_parsed_witness :
  cfg (final_world (Init Sample.env Sample.conf_path (Sample.world ["UNSET"] None)))
  = Some [].
Proof.
  assert (Sample.conf_path = ""
          ∨ nodes (Sample.world ["UNSET"] None) !! Sample.conf_path = None) as Hc
    by (right; vm_compute; reflexivity).
  exact (default_content_is_parsed Sample.env Sample.conf_path
           (Sample.world ["UNSET"] None) Hc eq_refl eq_refl).
Defined.

(** X17.  A failed write leaves the new file behind, with the bytes that
    were written before the fault (none at all when the write fails at
    once).  As the file now exists, a later run of [Init] does not create
    it again: it writes nothing and goes on to load the truncated file. *)
Theorem failed_write_leaves_file env path w n err :
  path ≠ "" → nodes w !! path = None →
  create_fault env path = None →
  write_fault env path = Some (n, err) →
  ∃ w', Init env path w = Panic (PanicLog (MsgWriteFailed err)) w'
    ∧ nodes w' !! path
      = Some (File (strings.take n
                      (filled_conf (rand_letters env (rand_pos w) 64)
                                   (rand_letters env (rand_pos w + 64) 64))))
    ∧ ∀ env2, materialize env2 path w' = Returned tt w'
              ∧ nodes (final_world (Init env2 path w')) = nodes w'.
Proof.
  intros Hne Hn Hf Hw.
  destruct (materialize_write_fails_file env path w n err (or_intror Hn) Hf Hw)
    as (w' & Hrun & Hfile).
  exists w'. rewrite Init_materialize_configure, bind_run, Hrun.
  split; [done|]. split; [by rewrite Hfile, confContent_filled|].
  intros env2.
  assert (materialize env2 path w' = Returned tt w') as Hm
    by (apply materialize_existing; [done | rewrite Hfile; by eexists]).
  split; [exact Hm|].
  pose proof (Init_final_files env2 path w') as Hfin. rewrite Hm in Hfin.
  by destruct Hfin as (? & _).
Qed.

Lemma failed_write_leaves_file_witness :
  ∃ w', Init Sample.env_disk_full Sample.conf_path (Sample.world ["UNSET"] None)
        = Panic (PanicLog (MsgWriteFailed (ErrOS "no space left on device"))) w'
    ∧ nodes w' !! Sample.conf_path = Some (File "")
    ∧ materialize Sample.env Sample.conf_path w' = Returned tt w'.
Proof.
  destruct (failed_write_leaves_file Sample.env_disk_full Sample.conf_path
              (Sample.world ["UNSET"] None) 0%nat (ErrOS "no space left on device"))
    as (w' & Hrun & Hfile & Hnext).
  - discriminate.
  - vm_compute. reflexivity.
  - reflexivity.
  - reflexivity.
  - exists w'. split; [exact Hrun|]. split; [exact Hfile|]. apply (Hnext Sample.env).
Defined.

(** X18.  With a document loaded, [mapSection] always returns.  It stores
    what the mapper produced in the record of its section before it
    validates, so the record keeps those values also when an error is
    reported; it touches no other record; and it reports no error exactly
    when the mapper reported none and the record passes validation. *)
Theorem mapSection_outcome env id w f :
  cfg w = Some f →
  let mapped := ini_MapTo env id (ini_Section f (section_name id)) (get_conf id (conf w)) in
  ∃ r, mapSection env id w = Returned r (set_confs (set_conf id mapped.1) w)
    ∧ (r = None
       ↔ mapped.2 = None ∧ validator.Struct (fields_of id mapped.1) = Errors [])
    ∧ get_conf id (set_conf id mapped.1 (conf w)) = mapped.1
    ∧ ∀ id', id ≠ id' → get_conf id' (set_conf id mapped.1 (conf w)) = get_conf id' (conf w).
Proof.
  intros Hcfg mapped. unfold mapSection, bind, gets. rewrite Hcfg. fold mapped.
  destruct mapped as [v [e|]] eqn:E; cbn [fst snd].
  - eexists. split; [reflexivity|]. split; [split; [done | by intros [? _]]|].
    split; [apply get_set_conf_eq | intros; by apply get_set_conf_ne].
  - cbn. destruct (Struct_fields_returns id v) as [errs ->].
    destruct errs as [|e errs]; (eexists; split; [reflexivity|]);
      (split; [split; [done || by intros [_ ?] | done || by intros [_ ?]]|]);
      (split; [apply get_set_conf_eq | intros; by apply get_set_conf_ne]).
Qed.

Lemma mapSection_outcome_witness :
  ∃ r, mapSection Sample.env SecCaptcha (set_cfg (Some []) (Sample.world ["UNSET"] None))
       = Returned r (set_confs (set_conf SecCaptcha (CaptchaConfig (Sample.configs ["UNSET"])))
                       (set_cfg (Some []) (Sample.world ["UNSET"] None))).
Proof.
  destruct (mapSection_outcome Sample.env SecCaptcha
              (set_cfg (Some []) (Sample.world ["UNSET"] None)) [] eq_refl)
    as (r & Hrun & _).
  exists r. exact Hrun.
Defined.

(** ** The order of the sections *)

Section SectionOrder.

Context (env : Env) (f : IniFile).







(** What the mapper makes of the record of a section, and whether
    [mapSection] accepts it. *)
Definition mapped (id : SectionId) (g : Configs) : struct_of id * option error :=
  ini_MapTo env id (ini_Section f (section_name id)) (get_conf id g).






End SectionOrder.

(** The process with another iteration order over the sections table. *)
Definition with_order (env : Env) (order : list SectionId) : Env := {|
  GOOS := GOOS env;
  Getwd := Getwd env;
  rand_Intn := rand_Intn env;
  create_fault := create_fault env;
  create_fault_empty := create_fault_empty env;
  write_fault := write_fault env;
  ini_parse := ini_parse env;
  ini_MapTo := ini_MapTo env;
  sections_order := order;
  replace_order := replace_order env;
|}.




(** An INI library for the examples: it parses two files, and its mapper
    copies the keys [Mode] and [Listen] of a section onto [SystemConfig]
    and the key [Secret] onto [SlaveConfig]. *)
Definition ini_key (s : IniSection) (k : string) : option string :=
  snd <$> List.find (λ p, String.eqb p.1 k) s.

Definition MapTo_keys (id : SectionId)
  : IniSection → struct_of id → struct_of id * option error :=
  match id return IniSection → struct_of id → struct_of id * option error with
  | SecSystem => λ s v,
      ({| system_Mode := default (system_Mode v) (ini_key s "Mode");
          system_Listen := default (system_Listen v) (ini_key s "Listen");
          system_Debug := system_Debug v;
          system_SessionSecret := system_SessionSecret v;
          system_HashIDSalt := system_HashIDSalt v |}, None)
  | SecSlave => λ s v,
      ({| slave_Secret := default (slave_Secret v) (ini_key s "Secret");
          slave_CallbackTimeout := slave_CallbackTimeout v;
          slave_SignatureTTL := slave_SignatureTTL v |}, None)
  | _ => λ _ v, (v, None)
  end.

Definition ini_listen : string :=
"[System]
Listen = :9999
".

Definition ini_two_bad_sections : string :=
"[System]
Mode = standalone
[Slave]
Secret = short
".

Definition env_keys : Env := {|
  GOOS := "linux";
  Getwd := Getwd Sample.env;
  rand_Intn := rand_Intn Sample.env;
  create_fault := create_fault Sample.env;
  create_fault_empty := create_fault_empty Sample.env;
  write_fault := write_fault Sample.env;
  ini_parse := λ content,
    if String.eqb content ini_listen then inr [("System", [("Listen", ":9999")])]
    else if String.eqb content ini_two_bad_sections then
      inr [("System", [("Mode", "standalone")]); ("Slave", [("Secret", "short")])]
    else inl (ErrParse "unknown file");
  ini_MapTo := MapTo_keys;
  sections_order := all_sections;
  replace_order := true;
|}.



(** With two sections that fail validation, the section the panic names
    and the records mapped before it are those of the order taken. *)
Lemma named_section_follows_order :
  let w := Sample.world ["UNSET"] (Some ini_two_bad_sections) in
  match Init (with_order env_keys all_sections) Sample.conf_path w,
        Init (with_order env_keys (rev all_sections)) Sample.conf_path w with
  | Panic (PanicLog (MsgSectionFailed name1 _)) w1,
    Panic (PanicLog (MsgSectionFailed name2 _)) w2 =>
      name1 = "System" ∧ slave_Secret (SlaveConfig (conf w1)) = ""
      ∧ name2 = "Slave" ∧ system_Mode (SystemConfig (conf w2)) = "master"
  | _, _ => False
  end.
Proof. vm_compute. done. Qed.
